(** * Traffic-light detector node (tl_detector.py): model and properties

    A shallow embedding of [src/ros/src/tl_detector/tl_detector.py]:
    the [Detector] base class with its control loop and callbacks, and the
    two subclasses [ImageDetector] and [DummyDetector].

    Conventions of the embedding.
    - Python integers are [Z]; [None]-able fields are [option].
    - Python lists are [list]; subscripting goes through [py_index], which
      implements negative subscripts and raises [IndexError] out of range.
    - Python dicts are stdpp [gmap]s.
    - A method that can raise returns a [result]; a method that mutates
      [self] returns the new object next to its [result], because the
      assignments made before an exception stay in effect.
    - Floating-point arithmetic is kept abstract: the float operations the
      source applies are the fields of the class [Floats], those that can
      raise return a [result], and a property below holds for every
      instance unless it states what it assumes of the floats. *)

From Stdlib Require Import ZArith Lia.
From stdpp Require Import gmap list sorting.

Local Open Scope Z_scope.

(** ** Python-level outcomes *)

Inductive exn : Type :=
| IndexError
| KeyError
| TypeError
| UnboundLocalError
| OverflowError
| ValueError.

#[global] Instance exn_eq_dec : EqDecision exn.
Proof. solve_decision. Defined.

Inductive result (A : Type) : Type :=
| Ok (a : A)
| Raise (e : exn).
Arguments Ok {A} a.
Arguments Raise {A} e.

#[global] Instance result_eq_dec `{EqDecision A} : EqDecision (result A).
Proof. solve_decision. Defined.

#[global] Instance result_ret : MRet result := fun A a => Ok a.
#[global] Instance result_bind : MBind result := fun A B k r =>
  match r with
  | Ok a => k a
  | Raise e => Raise e
  end.

(** [l[i]] with Python's treatment of negative subscripts. *)
Definition py_index {A} (l : list A) (i : Z) : result A :=
  let n := Z.of_nat (length l) in
  let j := if i <? 0 then i + n else i in
  if (0 <=? j) && (j <? n) then
    match l !! Z.to_nat j with
    | Some a => Ok a
    | None => Raise IndexError
    end
  else Raise IndexError.

(** ** Messages *)

(** Modelled from the spec: the constants of the [styx_msgs/TrafficLight]
    message, whose declaration is outside the source file; the spec lists
    the four states RED, YELLOW, GREEN and UNKNOWN. *)
Inductive TrafficLight : Type := RED | YELLOW | GREEN | UNKNOWN.

#[global] Instance TrafficLight_eq_dec : EqDecision TrafficLight.
Proof. solve_decision. Defined.

(** [TrafficWaypoint(stop_line, state)], the published event. *)
Record TrafficWaypoint : Type := mkTrafficWaypoint {
  tw_waypoint : Z;
  tw_state : TrafficLight
}.

Definition STATE_COUNT_THRESHOLD : Z := 3.

(** [LightData = namedtuple('LightData', ['index', 'state'])] *)
Module LightData.
Record t : Type := mk { index : Z; state : TrafficLight }.
End LightData.

(** [Point = namedtuple('Point', ['x', 'y'])].  The source builds points
    of floats (waypoints, poses, stop lines) and points of integers (the
    keys made by [get_light_point]). *)
Module Point.
Record t (A : Type) : Type := mk { x : A; y : A }.
Arguments mk {A} x y.
Arguments x {A} _.
Arguments y {A} _.
End Point.
Abbreviation Point := Point.t.

#[global] Instance Point_eq_dec `{EqDecision A} : EqDecision (Point A).
Proof. solve_decision. Defined.

#[global] Program Instance Point_countable `{Countable A} : Countable (Point A) :=
  inj_countable' (fun p => (Point.x p, Point.y p))
                 (fun q => Point.mk q.1 q.2) _.
Next Obligation. by intros A ?? []. Qed.

(** ** Floats

    The source computes with Python floats: coordinates, and the distances
    made from them.  Their arithmetic is kept abstract; the class lists the
    float operations the source applies, under their Python names where
    Rocq has room for them: [-] and [+], [math.pow] and [math.sqrt], the
    comparisons [>] and [<], the conversion of an integer that is compared
    with a float, and the truncation [int(...)].  [pow], [sqrt] and [int]
    can raise ([OverflowError] on a result too large for a float or on an
    infinite argument of [int], [ValueError] on a domain error or on a NaN
    argument of [int]); the other operations return a float or a boolean
    for all arguments, NaN and the infinities included. *)
Class Floats : Type := {
  float : Type;
  fsub : float -> float -> float;
  fadd : float -> float -> float;
  pow : float -> Z -> result float;
  sqrt : float -> result float;
  float_gt : float -> float -> bool;
  float_lt : float -> float -> bool;
  float_of_int : Z -> float;
  int : float -> result Z
}.

(** [distance(point1, point2)]: the two powers, then the sum, then the
    root. *)
Definition distance `{Floats} (point1 point2 : Point float) : result float :=
  dx2 ← pow (fsub (Point.x point1) (Point.x point2)) 2;
  dy2 ← pow (fsub (Point.y point1) (Point.y point2)) 2;
  sqrt (fadd dx2 dy2).

(** [sys.maxint] of 64-bit CPython 2. *)
Definition sys_maxint : Z := 2 ^ 63 - 1.

(** The classifier of the image variant: [bridge.imgmsg_to_cv2] followed
    by [light_classifier.get_classification], an external function from
    camera frames to light states. *)
Class Classifier : Type := {
  Image : Type;
  get_classification : Image -> TrafficLight
}.

(** [get_light_point(light)], applied to the light's position. *)
Definition get_light_point `{Floats} (position : Point float)
    : result (Point Z) :=
  px ← int (Point.x position);
  py ← int (Point.y position);
  Ok (Point.mk px py).

(** One entry of [TrafficLightArray.lights]: [light.pose.pose.position]
    and [light.state]. *)
Record Light `{Floats} : Type := mkLight {
  light_position : Point float;
  light_state : TrafficLight
}.
Arguments mkLight {_} _ _.

(** [range(a, b)] *)
Definition py_range (a b : Z) : list Z :=
  map (fun k => a + Z.of_nat k) (seq 0 (Z.to_nat (b - a))).

(** [len(l)] *)
Definition len {A} (l : list A) : Z := Z.of_nat (length l).

(** [sorted(l)] and [l.sort()] on integers. *)
Definition sorted (l : list Z) : list Z := merge_sort Z.le l.

(** ** class Detector *)

Section Detector.
Context `{Floats}.

Record Detector : Type := mkDetector {
  state : TrafficLight;
  state_count : Z;
  last_stop_line : option Z;
  shared_car_index : option Z;
  shared_waypoints : option (list (Point float));
  shared_stop_lines : option (list Z)
}.

Definition set_state (v : TrafficLight) (self : Detector) : Detector :=
  mkDetector v (state_count self) (last_stop_line self)
    (shared_car_index self) (shared_waypoints self) (shared_stop_lines self).

Definition set_state_count (v : Z) (self : Detector) : Detector :=
  mkDetector (state self) v (last_stop_line self)
    (shared_car_index self) (shared_waypoints self) (shared_stop_lines self).

Definition set_last_stop_line (v : option Z) (self : Detector) : Detector :=
  mkDetector (state self) (state_count self) v
    (shared_car_index self) (shared_waypoints self) (shared_stop_lines self).

Definition set_shared_car_index (v : option Z) (self : Detector) : Detector :=
  mkDetector (state self) (state_count self) (last_stop_line self)
    v (shared_waypoints self) (shared_stop_lines self).

Definition set_shared_waypoints (v : option (list (Point float)))
    (self : Detector) : Detector :=
  mkDetector (state self) (state_count self) (last_stop_line self)
    (shared_car_index self) v (shared_stop_lines self).

Definition set_shared_stop_lines (v : option (list Z))
    (self : Detector) : Detector :=
  mkDetector (state self) (state_count self) (last_stop_line self)
    (shared_car_index self) (shared_waypoints self) v.

(** [Detector.__init__] *)
Definition Detector_init : Detector :=
  {| state := UNKNOWN;
     state_count := 0;
     last_stop_line := None;
     shared_car_index := None;
     shared_waypoints := None;
     shared_stop_lines := None |}.

(** *** get_stop_line *)

(** The [for index in self.shared_stop_lines] loop of [get_stop_line]. *)
Fixpoint first_after (car_index : Z) (stop_lines : list Z) : option Z :=
  match stop_lines with
  | [] => None
  | index :: rest =>
      if index >? car_index then Some index else first_after car_index rest
  end.

(** Iterating over [None] is a [TypeError]. *)
Definition get_stop_line (self : Detector) : result (option Z) :=
  match shared_car_index self with
  | None => Ok None
  | Some car_index =>
      match shared_stop_lines self with
      | None => Raise TypeError
      | Some stop_lines => Ok (first_after car_index stop_lines)
      end
  end.

(** *** get_closest_waypoint *)

(** The loop of [get_closest_waypoint]; [closest_index] is unbound
    ([None]) until the first distance below [closest_dist] is seen. *)
Fixpoint closest_loop (point : Point float) (waypoints : list (Point float))
    (i : Z) (closest_dist : float) (closest_index : option Z)
    : result (option Z) :=
  match waypoints with
  | [] => Ok closest_index
  | wp :: rest =>
      d ← distance wp point;
      if float_lt d closest_dist
      then closest_loop point rest (i + 1) d (Some i)
      else closest_loop point rest (i + 1) closest_dist closest_index
  end.

Definition get_closest_waypoint (self : Detector) (point : Point float)
    : result Z :=
  match shared_waypoints self with
  | None => Ok (-1)
  | Some waypoints =>
      if len waypoints =? 0 then Ok (-1)
      else
        closest_index ←
          closest_loop point waypoints 0 (float_of_int sys_maxint) None;
        match closest_index with
        | Some closest_index => Ok closest_index
        | None => Raise UnboundLocalError
        end
  end.

(** *** pose_cb *)

(** Lines 83-84: the reset test and the reset.  Returns the object and the
    value of [self.shared_car_index] after line 84. *)
Definition reset_car_index (self : Detector) : result (Detector * Z) :=
  match shared_car_index self with
  | None => Ok (set_shared_car_index (Some 0) self, 0)
  | Some car_index =>
      match shared_stop_lines self with
      | None => Raise TypeError
      | Some stop_lines =>
          last_line ← py_index stop_lines (-1);
          if car_index >? last_line
          then Ok (set_shared_car_index (Some 0) self, 0)
          else Ok (self, car_index)
      end
  end.

(** Lines 89-94: the forward scan over [range(car_index + 1, len)]. *)
Fixpoint scan (position : Point float) (waypoints : list (Point float))
    (indices : list Z) (current_dist : float) (self : Detector)
    : Detector * result unit :=
  match indices with
  | [] => (self, Ok ())
  | i :: rest =>
      match py_index waypoints i with
      | Raise e => (self, Raise e)
      | Ok wp =>
          match distance position wp with
          | Raise e => (self, Raise e)
          | Ok d =>
              if float_gt d current_dist then (self, Ok ())
              else scan position waypoints rest d
                     (set_shared_car_index (Some i) self)
          end
      end
  end.

Definition pose_cb (self : Detector) (position : Point float)
    : Detector * result unit :=
  match shared_waypoints self with
  | None => (self, Ok ())
  | Some waypoints =>
      match reset_car_index self with
      | Raise e => (self, Raise e)
      | Ok (self1, car_index) =>
          match py_index waypoints car_index with
          | Raise e => (self1, Raise e)
          | Ok wp =>
              match distance position wp with
              | Raise e => (self1, Raise e)
              | Ok current_dist =>
                  scan position waypoints
                    (py_range (car_index + 1) (len waypoints))
                    current_dist self1
              end
          end
      end
  end.

(** *** waypoints_cb *)

(** Lines 112-115: the loop that appends the closest waypoint of every
    configured stop line to [self.shared_stop_lines]. *)
Fixpoint bind_stop_lines (stop_lines : list (Point float)) (self : Detector)
    : Detector * result unit :=
  match stop_lines with
  | [] => (self, Ok ())
  | position :: rest =>
      match get_closest_waypoint self position with
      | Raise e => (self, Raise e)
      | Ok index =>
          bind_stop_lines rest
            (set_shared_stop_lines
               ((fun l => l ++ [index]) <$> shared_stop_lines self) self)
      end
  end.

(** [waypoints] is [msg.waypoints] reduced to positions; [stop_lines] is
    the ['stop_line_positions'] entry of the configuration parameter, its
    pairs taken as points with float coordinates. *)
Definition waypoints_cb (self : Detector) (waypoints : list (Point float))
    (stop_lines : list (Point float)) : Detector * result unit :=
  let self := set_shared_car_index None self in
  if len stop_lines =? 0 then (self, Ok ())
  else
    let self := set_shared_waypoints (Some waypoints) self in
    let self := set_shared_stop_lines (Some []) self in
    match bind_stop_lines stop_lines self with
    | (self, Raise e) => (self, Raise e)
    | (self, Ok _) =>
        (set_shared_stop_lines (sorted <$> shared_stop_lines self) self,
         Ok ())
    end.

(** *** loop *)

(** Lines 66-76: the debounce step, with the event it publishes. *)
Definition debounce (self : Detector) (stop_line : Z) (st : TrafficLight)
    : Detector * option TrafficWaypoint :=
  let '(self, published) :=
    if bool_decide (state self ≠ st) then
      (set_state st (set_state_count 0 self), None)
    else if (state_count self =? STATE_COUNT_THRESHOLD)
            || (state_count self >? STATE_COUNT_THRESHOLD)
               && bool_decide (last_stop_line self ≠ Some stop_line)
    then (set_last_stop_line (Some stop_line) self,
          Some (mkTrafficWaypoint stop_line st))
    else (self, None) in
  (set_state_count (state_count self + 1) self, published).

(** One iteration of the [while] loop of [loop] (lines 60-76).
    [light_state] is the outcome of [self.get_traffic_light_state()], the
    method the subclasses provide; it is looked at only when a stop line
    is ahead.  An exception leaves the loop. *)
Definition loop_iteration (self : Detector)
    (light_state : result TrafficLight)
    : Detector * result (option TrafficWaypoint) :=
  match get_stop_line self with
  | Raise e => (self, Raise e)
  | Ok None => (self, Ok None)
  | Ok (Some stop_line) =>
      match light_state with
      | Raise e => (self, Raise e)
      | Ok st =>
          let '(self, published) := debounce self stop_line st in
          (self, Ok published)
      end
  end.

End Detector.

(** ** class ImageDetector(Detector) *)

Section ImageDetector.
Context `{Floats} `{Classifier}.

Record ImageDetector : Type := mkImageDetector {
  image_base : Detector;
  shared_camera_image : option Image
}.

(** [ImageDetector.__init__] *)
Definition ImageDetector_init : ImageDetector :=
  {| image_base := Detector_init; shared_camera_image := None |}.

Definition image_cb (self : ImageDetector) (msg : Image) : ImageDetector :=
  mkImageDetector (image_base self) (Some msg).

Definition image_get_traffic_light_state (self : ImageDetector)
    : result TrafficLight :=
  match shared_camera_image self with
  | None => Ok UNKNOWN
  | Some camera_image => Ok (get_classification camera_image)
  end.

Definition image_loop_iteration (self : ImageDetector)
    : ImageDetector * result (option TrafficWaypoint) :=
  let '(base, r) :=
    loop_iteration (image_base self) (image_get_traffic_light_state self) in
  (mkImageDetector base (shared_camera_image self), r).

End ImageDetector.

(** ** class DummyDetector(Detector) *)

Section DummyDetector.
Context `{Floats}.

Record DummyDetector : Type := mkDummyDetector {
  dummy_base : Detector;
  shared_traffic_lights : option (gmap (Point Z) LightData.t);
  tl_map : gmap Z (Point Z)
}.

(** [DummyDetector.__init__] *)
Definition DummyDetector_init : DummyDetector :=
  {| dummy_base := Detector_init;
     shared_traffic_lights := None;
     tl_map := ∅ |}.

(** Lines 202-207: the loop that builds the bindings; [lights] is
    [self.shared_traffic_lights], already a dict. *)
Fixpoint build_lights (base : Detector) (msg_lights : list Light)
    (lights : gmap (Point Z) LightData.t) (tlm : gmap Z (Point Z))
    : gmap (Point Z) LightData.t * gmap Z (Point Z) * result unit :=
  match msg_lights with
  | [] => (lights, tlm, Ok ())
  | light :: rest =>
      match get_light_point (light_position light) with
      | Raise e => (lights, tlm, Raise e)
      | Ok point =>
          match get_closest_waypoint base (light_position light) with
          | Raise e => (lights, tlm, Raise e)
          | Ok index =>
              build_lights base rest
                (<[point := LightData.mk index (light_state light)]> lights)
                (<[index := point]> tlm)
          end
      end
  end.

(** Lines 209-213: the loop that refreshes the states of the bindings. *)
Fixpoint update_lights (msg_lights : list Light)
    (lights : gmap (Point Z) LightData.t)
    : gmap (Point Z) LightData.t * result unit :=
  match msg_lights with
  | [] => (lights, Ok ())
  | light :: rest =>
      match get_light_point (light_position light) with
      | Raise e => (lights, Raise e)
      | Ok point =>
          match lights !! point with
          | None => (lights, Raise KeyError)
          | Some data =>
              update_lights rest
                (<[point := LightData.mk (LightData.index data)
                              (light_state light)]> lights)
          end
      end
  end.

Definition traffic_cb (self : DummyDetector) (msg_lights : list Light)
    : DummyDetector * result unit :=
  match shared_waypoints (dummy_base self) with
  | None => (self, Ok ())
  | Some _ =>
      match shared_traffic_lights self with
      | None =>
          let '(lights, tlm, r) :=
            build_lights (dummy_base self) msg_lights ∅ (tl_map self) in
          (mkDummyDetector (dummy_base self) (Some lights) tlm, r)
      | Some lights =>
          let '(lights, r) := update_lights msg_lights lights in
          (mkDummyDetector (dummy_base self) (Some lights) (tl_map self), r)
      end
  end.

(** [index > self.shared_car_index]; in Python 2 every integer is greater
    than [None]. *)
Definition gt_car_index (index : Z) (car_index : option Z) : bool :=
  match car_index with
  | None => true
  | Some c => index >? c
  end.

(** Lines 222-225: the first key of [sorted(self.tl_map.keys())] beyond the
    car. *)
Fixpoint first_light_after (car_index : option Z) (keys : list Z)
    : option Z :=
  match keys with
  | [] => None
  | index :: rest =>
      if gt_car_index index car_index then Some index
      else first_light_after car_index rest
  end.

(** Subscripting [self.shared_waypoints], which may be [None], by a value
    that may be [None]. *)
Definition waypoint_at (waypoints : option (list (Point float)))
    (i : option Z) : result (Point float) :=
  match waypoints, i with
  | Some l, Some i => py_index l i
  | _, _ => Raise TypeError
  end.

(** [d[k]] on a dict. *)
Definition py_getitem `{Countable K} {V} (d : gmap K V) (k : K) : result V :=
  match d !! k with
  | Some v => Ok v
  | None => Raise KeyError
  end.

Definition dummy_get_traffic_light_state (self : DummyDetector)
    : result TrafficLight :=
  match shared_traffic_lights self with
  | None => Ok UNKNOWN
  | Some lights =>
      let car_index := shared_car_index (dummy_base self) in
      match first_light_after car_index
              (sorted (map_to_list (tl_map self)).*1) with
      | None => Ok UNKNOWN
      | Some tl_index =>
          let waypoints := shared_waypoints (dummy_base self) in
          wp_light ← waypoint_at waypoints (Some tl_index);
          wp_car ← waypoint_at waypoints car_index;
          dist ← distance wp_light wp_car;
          if float_gt dist (float_of_int 150) then Ok UNKNOWN
          else
            point ← py_getitem (tl_map self) tl_index;
            data ← py_getitem lights point;
            Ok (LightData.state data)
      end
  end.

(** The lookup table is empty until the bindings are built, and then
    every waypoint index in it leads to a binding. *)
Definition bindings_bound (self : DummyDetector) : Prop :=
  match shared_traffic_lights self with
  | None => tl_map self = ∅
  | Some lights =>
      ∀ index point,
        tl_map self !! index = Some point → is_Some (lights !! point)
  end.

(** The state the message [msg_lights] reports last for the key [point],
    if it reports one. *)
Fixpoint reported (msg_lights : list Light) (point : Point Z)
    : option TrafficLight :=
  match msg_lights with
  | [] => None
  | light :: rest =>
      match reported rest point with
      | Some st => Some st
      | None =>
          if decide (get_light_point (light_position light) = Ok point)
          then Some (light_state light) else None
      end
  end.

Definition dummy_loop_iteration (self : DummyDetector)
    : DummyDetector * result (option TrafficWaypoint) :=
  let '(base, r) :=
    loop_iteration (dummy_base self) (dummy_get_traffic_light_state self) in
  (mkDummyDetector base (shared_traffic_lights self) (tl_map self), r).

End DummyDetector.

(** ** The node: callbacks and loop iterations in arrival order *)

Section Node.
Context `{Floats} `{Classifier}.

(** The detector object made by the [__main__] block. *)
Inductive Node : Type :=
| ImageNode (self : ImageDetector)
| DummyNode (self : DummyDetector).

Definition node_base (n : Node) : Detector :=
  match n with
  | ImageNode self => image_base self
  | DummyNode self => dummy_base self
  end.

(** What can happen to the node: a message on one of its topics, or one
    iteration of [loop].  [Route] carries the message and the stop-line
    configuration read while handling it. *)
Inductive event : Type :=
| Pose (position : Point float)
| Route (waypoints stop_lines : list (Point float))
| Frame (msg : Image)
| Lights (msg_lights : list Light)
| Tick.

(** One event.  Every handler and every loop iteration runs under the
    mutex, one at a time.  An exception in a handler ends the handler and
    keeps the assignments it made; the subscriptions of the other variant
    do not exist. *)
Definition node_step (n : Node) (ev : event)
    : Node * result (option TrafficWaypoint) :=
  match n, ev with
  | ImageNode self, Pose position =>
      (ImageNode (mkImageDetector (pose_cb (image_base self) position).1
                    (shared_camera_image self)), Ok None)
  | DummyNode self, Pose position =>
      (DummyNode (mkDummyDetector (pose_cb (dummy_base self) position).1
                    (shared_traffic_lights self) (tl_map self)), Ok None)
  | ImageNode self, Route waypoints stop_lines =>
      (ImageNode (mkImageDetector
                    (waypoints_cb (image_base self) waypoints stop_lines).1
                    (shared_camera_image self)), Ok None)
  | DummyNode self, Route waypoints stop_lines =>
      (DummyNode (mkDummyDetector
                    (waypoints_cb (dummy_base self) waypoints stop_lines).1
                    (shared_traffic_lights self) (tl_map self)), Ok None)
  | ImageNode self, Frame msg => (ImageNode (image_cb self msg), Ok None)
  | DummyNode self, Lights msg_lights =>
      (DummyNode (traffic_cb self msg_lights).1, Ok None)
  | ImageNode self, Lights _ => (n, Ok None)
  | DummyNode self, Frame _ => (n, Ok None)
  | ImageNode self, Tick =>
      let '(self, r) := image_loop_iteration self in (ImageNode self, r)
  | DummyNode self, Tick =>
      let '(self, r) := dummy_loop_iteration self in (DummyNode self, r)
  end.

(** A run: the events published, in order, and whether the loop is still
    alive at the end ([Raise e] when an iteration raised [e], which ends
    the process). *)
Fixpoint node_run (n : Node) (events : list event)
    : Node * list TrafficWaypoint * result unit :=
  match events with
  | [] => (n, [], Ok ())
  | ev :: rest =>
      match node_step n ev with
      | (n, Raise e) => (n, [], Raise e)
      | (n, Ok published) =>
          let '(n', out, r) := node_run n rest in
          (n', from_option (fun tw => [tw]) [] published ++ out, r)
      end
  end.

(** The reset test of [pose_cb] (line 83) holds of a defined index [c]. *)
Definition past_last_stop_line (self : Detector) (c : Z) : Prop :=
  ∃ stop_lines last_line,
    shared_stop_lines self = Some stop_lines
    ∧ py_index stop_lines (-1) = Ok last_line
    ∧ last_line < c.

(** No route has been loaded. *)
Definition route_free (n : Node) : Prop :=
  shared_waypoints (node_base n) = None
  ∧ shared_car_index (node_base n) = None.


(** An event that loads no route: any event but a route message handled
    with a non-empty stop-line configuration. *)
Definition loads_no_route (ev : event) : Prop :=
  match ev with
  | Route _ stop_lines => stop_lines = []
  | _ => True
  end.


(** What holds of the node at all times: a defined vehicle index is not
    negative, it is undefined while no route is loaded, and the light
    bindings are consistent. *)
Definition node_invariant (n : Node) : Prop :=
  (∀ c, shared_car_index (node_base n) = Some c → 0 ≤ c)
  ∧ (shared_waypoints (node_base n) = None →
     shared_car_index (node_base n) = None)
  ∧ match n with
    | ImageNode _ => True
    | DummyNode self => bindings_bound self
    end.


(** Repeated loop iterations against a light-state source that answers
    [samples] in turn: what each iteration published. *)
Fixpoint loop_trace (self : Detector) (samples : list TrafficLight)
    : list (result (option TrafficWaypoint)) :=
  match samples with
  | [] => []
  | st :: rest =>
      let '(self, r) := loop_iteration self (Ok st) in
      r :: loop_trace self rest
  end.

End Node.

(** ** The specification's Debouncer, in its own words

    State [(confirmedState, consecutiveCount, lastPublishedStopLine)] and
    the transition per tick given [(stopLineIndex, rawState)] with a stop
    line present. *)

Record DebounceState : Type := mkDebounceState {
  confirmedState : TrafficLight;
  consecutiveCount : Z;
  lastPublishedStopLine : option Z
}.

Definition spec_threshold : Z := 3.

Definition spec_debounce (s : DebounceState) (stopLineIndex : Z)
    (rawState : TrafficLight) : DebounceState * option (Z * TrafficLight) :=
  let '(s1, event) :=
    if decide (rawState ≠ confirmedState s) then
      (mkDebounceState rawState 0 (lastPublishedStopLine s), None)
    else if decide (consecutiveCount s = spec_threshold
                    ∨ (spec_threshold < consecutiveCount s
                       ∧ Some stopLineIndex ≠ lastPublishedStopLine s)) then
      (mkDebounceState (confirmedState s) (consecutiveCount s)
         (Some stopLineIndex),
       Some (stopLineIndex, confirmedState s))
    else (s, None) in
  (mkDebounceState (confirmedState s1) (consecutiveCount s1 + 1)
     (lastPublishedStopLine s1),
   event).

(** The debounce fields of a detector, read as the specification's state. *)
Definition debounce_state `{Floats} (self : Detector) : DebounceState :=
  mkDebounceState (state self) (state_count self) (last_stop_line self).

(** A published message, read as the specification's event. *)
Definition event_of (tw : TrafficWaypoint) : Z * TrafficLight :=
  (tw_waypoint tw, tw_state tw).

(** ** The specification's updatePose, in its own words

    Start from the last known index, or 0 if it is undefined or exceeds the
    index of the last stop line; take the distance to the waypoint there;
    advance while the next waypoint is no farther than the current minimum
    and stop at the first waypoint whose distance increases.  The scan is
    stated on [distances], the distances from the pose to the waypoints of
    the route in route order; [float_le] is the specification's "less than
    or equal" on them. *)

Section SpecRouteTrack.
Context `{Floats}.
Variable float_le : float -> float -> bool.




End SpecRouteTrack.

(** ** An integer grid, to run the model on

    Floats with integer values only.  [pow] raises [OverflowError] when the
    power is beyond the largest float, as [math.pow] does; [sqrt] is the
    integer square root, which is the square root itself on a perfect
    square, and raises [ValueError] below 0.  The points used below lie on
    one axis, so that every distance taken is an integer. *)

Module Grid.

(** The largest finite double. *)
Definition max_float : Z := 2 ^ 1024 - 2 ^ 971.

#[global] Instance floats : Floats := {|
  float := Z;
  fsub := Z.sub;
  fadd := Z.add;
  pow a n :=
    if Z.abs (a ^ n) <=? max_float then Ok (a ^ n) else Raise OverflowError;
  sqrt a := if a <? 0 then Raise ValueError else Ok (Z.sqrt a);
  float_gt a b := a >? b;
  float_lt a b := a <? b;
  float_of_int n := n;
  int a := Ok a
|}.

(** A classifier for the grid: the frame is the state it shows. *)
#[global] Instance classifier : Classifier := {|
  Image := TrafficLight;
  get_classification img := img
|}.

Definition le (a b : float) : bool := a <=? b.

(** The route of the specification's example. *)
Definition route : list (Point float) :=
  [Point.mk 0 0; Point.mk 10 0; Point.mk 20 0; Point.mk 30 0].

(** One configured stop line, next to waypoint 2. *)
Definition stop_lines : list (Point float) := [Point.mk 21 0].

(** The route loaded with that stop line. *)
Definition loaded : Detector := (waypoints_cb Detector_init route stop_lines).1.

(** ... and the car at waypoint 0. *)
Definition at_start : Detector := (pose_cb loaded (Point.mk 1 0)).1.

(** A detector that confirmed GREEN long ago for stop line 2 and now has
    stop line 3 ahead. *)
Definition moved_on : Detector :=
  mkDetector GREEN 7 (Some 2) (Some 2) (Some route) (Some [2; 3]).

(** The ground-truth detector on that route, before any light message. *)
Definition dummy_at_start : DummyDetector :=
  mkDummyDetector at_start None ∅.

(** A light message: one red light next to waypoint 2. *)
Definition lights : list Light := [mkLight (Point.mk 21 0) RED].

Definition dummy_bound : DummyDetector := (traffic_cb dummy_at_start lights).1.

(** The next light message: the same light, now green. *)
Definition lights_green : list Light := [mkLight (Point.mk 21 0) GREEN].

(** A route with waypoints 100 units apart, a stop line and a red light
    at waypoint 2, and the car at waypoint 0: the light is 200 units away. *)
Definition far_route : list (Point float) :=
  [Point.mk 0 0; Point.mk 100 0; Point.mk 200 0; Point.mk 300 0].

Definition far_at_start : Detector :=
  (pose_cb (waypoints_cb Detector_init far_route [Point.mk 201 0]).1
     (Point.mk 1 0)).1.

Definition far_lights : list Light := [mkLight (Point.mk 201 0) RED].

Definition far_bound : DummyDetector :=
  (traffic_cb (mkDummyDetector far_at_start None ∅) far_lights).1.

End Grid.

(** ** Notions used to state further properties *)

Section Notions.
Context `{Floats}.


(** A route is loaded with its stop lines, neither is empty, and the
    vehicle index, when defined, is an index of the route. *)
Definition route_track_ready (self : Detector) (route : list (Point float))
    (stop_lines : list Z) : Prop :=
  shared_waypoints self = Some route
  ∧ shared_stop_lines self = Some stop_lines
  ∧ route ≠ []
  ∧ stop_lines ≠ []
  ∧ ∀ c, shared_car_index self = Some c → 0 ≤ c < len route.

(** From waypoint [c] to waypoint [c'] no step takes [position] farther
    away, in the sense of the test of line 91. *)
Definition descends (position : Point float) (route : list (Point float))
    (c c' : Z) : Prop :=
  ∀ i, c ≤ i < c' →
  ∀ wp wp',
    route !! Z.to_nat i = Some wp →
    route !! Z.to_nat (i + 1) = Some wp' →
    ∃ d d', distance position wp = Ok d
            ∧ distance position wp' = Ok d'
            ∧ float_gt d' d = false.

(** The waypoint after [c'], if there is one, is farther from [position]
    than waypoint [c']. *)
Definition stops (position : Point float) (route : list (Point float))
    (c' : Z) : Prop :=
  ∀ wp wp',
    route !! Z.to_nat c' = Some wp →
    route !! Z.to_nat (c' + 1) = Some wp' →
    ∃ d d', distance position wp = Ok d
            ∧ distance position wp' = Ok d'
            ∧ float_gt d' d = true.

(** Lines 66-76 run on successive samples [(stop_line, state)]: the loop
    on the ticks that find a stop line ahead.  What each tick publishes. *)
Fixpoint debounce_trace (self : Detector) (samples : list (Z * TrafficLight))
    : list (option TrafficWaypoint) :=
  match samples with
  | [] => []
  | (stop_line, st) :: rest =>
      let '(self, published) := debounce self stop_line st in
      published :: debounce_trace self rest
  end.

End Notions.

Section DebounceNotions.
Context `{Floats}.

(** The counter of [self] is backed by the samples seen so far: it counts
    no more than the trailing samples of [seen] that carry the confirmed
    state. *)
Definition counter_backed (self : Detector)
    (seen : list (Z * TrafficLight)) : Prop :=
  state_count self ≤ Z.of_nat (length seen)
  ∧ ∀ i : nat,
      Z.of_nat (length seen) - state_count self ≤ Z.of_nat i →
      (i < length seen)%nat →
      ∃ stop_line, seen !! i = Some (stop_line, state self).

End DebounceNotions.

Section NodeNotions.
Context `{Floats} `{Classifier}.

(** A defined vehicle index comes with a route, and a route with its stop
    lines. *)
Definition route_stored (self : Detector) : Prop :=
  (is_Some (shared_car_index self) → is_Some (shared_waypoints self))
  ∧ (is_Some (shared_waypoints self) → is_Some (shared_stop_lines self)).

(** The camera frame held after [events], given the one held before. *)
Fixpoint last_frame (events : list event) (held : option Image)
    : option Image :=
  match events with
  | [] => held
  | Frame msg :: rest => last_frame rest (Some msg)
  | _ :: rest => last_frame rest held
  end.

End NodeNotions.

(** ** More cases on the grid *)

Module Cases.

(** Three configured stop lines; no waypoint of [Grid.route] is closer
    than [sys.maxint] to the third. *)
Definition unreachable_stop_lines : list (Point float) :=
  [Point.mk 29 0; Point.mk 11 0; Point.mk (2 ^ 63 + 100) 0].

(** RED confirmed, counter at the threshold, nothing published yet, the
    car at waypoint 0 of [Grid.route] and stop line 2 ahead. *)
Definition confirming : Detector :=
  mkDetector RED 3 None (Some 0) (Some Grid.route) (Some [2]).

(** A shorter route, loaded after the lights were bound on [Grid.route]:
    the binding at waypoint 2 stays, the route has two waypoints. *)
Definition short_route : list (Point float) := [Point.mk 0 0; Point.mk 10 0].

Definition stale : DummyDetector :=
  mkDummyDetector
    (pose_cb (waypoints_cb (dummy_base Grid.dummy_bound) short_route
                [Point.mk 9 0]).1 (Point.mk 1 0)).1
    (shared_traffic_lights Grid.dummy_bound)
    (tl_map Grid.dummy_bound).


(** From the start of the process: a route load that raises on its third
    stop line, then a pose near waypoint 0. *)
Definition failed_load : list event :=
  [Route Grid.route unreachable_stop_lines; Pose (Point.mk 1 0)].

(** From the start of the process: route, pose and lights as in
    [Grid.dummy_bound], then the shorter route and a pose near its
    waypoint 0. *)
Definition reload : list event :=
  [Route Grid.route Grid.stop_lines; Pose (Point.mk 1 0);
   Lights Grid.lights; Route short_route [Point.mk 9 0];
   Pose (Point.mk 1 0)].

End Cases.

(** ** Floats with a NaN

    Integers and one more value, [None], that behaves as NaN does:
    arithmetic on it gives NaN, every comparison with it is false, and
    [int] raises [ValueError] on it. *)

Module Nan.

Definition lift2 (f : Z → Z → Z) (a b : option Z) : option Z :=
  match a, b with
  | Some u, Some v => Some (f u v)
  | _, _ => None
  end.

Definition test2 (f : Z → Z → bool) (a b : option Z) : bool :=
  match a, b with
  | Some u, Some v => f u v
  | _, _ => false
  end.

#[local] Instance floats : Floats := {|
  float := option Z;
  fsub := lift2 Z.sub;
  fadd := lift2 Z.add;
  pow a n := Ok ((λ u, u ^ n) <$> a);
  sqrt a := Ok (Z.sqrt <$> a);
  float_gt := test2 Z.gtb;
  float_lt := test2 Z.ltb;
  float_of_int n := Some n;
  int a := match a with Some u => Ok u | None => Raise ValueError end
|}.

(** [<=] on these floats. *)
Definition le : float → float → bool := test2 Z.leb.

Definition point (u v : Z) : Point float := Point.mk (Some u) (Some v).

(** The route of the specification's example, with a stop line at
    waypoint 2, loaded. *)
Definition route : list (Point float) :=
  [point 0 0; point 10 0; point 20 0; point 30 0].

Definition loaded : Detector :=
  (waypoints_cb Detector_init route [point 21 0]).1.

(** A pose whose [x] is NaN, and its distances to the waypoints. *)
Definition pose : Point float := Point.mk None (Some 0).

Definition distances : list float := [None; None; None; None].

End Nan.

(** * Properties *)

(** ** The Debouncer (lines 66-76 of [loop]) *)

Section DebouncerFacts.
Context `{Floats}.

(** The source's publish test is the specification's. *)
Lemma publish_condition (c : Z) (l : option Z) (s : Z) :
  (c =? STATE_COUNT_THRESHOLD)
  || (c >? STATE_COUNT_THRESHOLD) && bool_decide (l ≠ Some s)
  = bool_decide (c = spec_threshold ∨ (spec_threshold < c ∧ Some s ≠ l)).
Proof.
  unfold STATE_COUNT_THRESHOLD, spec_threshold.
  destruct (Z.eqb_spec c 3) as [->|Hne]; cbn.
  - symmetry. apply bool_decide_eq_true. by left.
  - destruct (Z.gtb_spec c 3) as [Hgt|Hle]; cbn.
    + apply bool_decide_ext. split.
      * intros Hl. right. split; [lia | congruence].
      * intros [?|[_ Hl]]; [lia | congruence].
    + symmetry. apply bool_decide_eq_false. intros [?|[? _]]; lia.
Qed.

Lemma fmap_seq_const {A} (f : nat → A) (c : A) (i n : nat) :
  (∀ k, f k = c) → f <$> seq i n = replicate n c.
Proof.
  intros Hf. revert i. induction n as [|n IH]; intros i; [done|].
  cbn. by rewrite Hf, IH.
Qed.

(** The three outcomes of one debounce step. *)
Lemma debounce_changed (self : Detector) s st :
  state self ≠ st →
  debounce self s st
  = (set_state_count 1 (set_state st (set_state_count 0 self)), None).
Proof. intros Hne. unfold debounce. by rewrite bool_decide_true. Qed.

Lemma debounce_publish (self : Detector) s st :
  state self = st →
  state_count self = STATE_COUNT_THRESHOLD
  ∨ (STATE_COUNT_THRESHOLD < state_count self ∧ last_stop_line self ≠ Some s) →
  debounce self s st
  = (set_state_count (state_count self + 1)
       (set_last_stop_line (Some s) self),
     Some (mkTrafficWaypoint s st)).
Proof.
  intros Hst Hc. unfold debounce.
  rewrite bool_decide_false by (intros Hn; by apply Hn).
  rewrite publish_condition, bool_decide_true; [done|].
  destruct Hc as [?|[? ?]]; [by left | right; split; [done|congruence]].
Qed.

Lemma debounce_quiet (self : Detector) s st :
  state self = st →
  state_count self ≠ STATE_COUNT_THRESHOLD →
  (STATE_COUNT_THRESHOLD < state_count self → last_stop_line self = Some s) →
  debounce self s st
  = (set_state_count (state_count self + 1) self, None).
Proof.
  intros Hst Hc Hl. unfold debounce.
  rewrite bool_decide_false by (intros Hn; by apply Hn).
  rewrite publish_condition, bool_decide_false; [done|].
  intros [?|[Hlt Hne]]; [done|]. apply Hne. symmetry. by apply Hl.
Qed.

Lemma debounce_frame (self : Detector) (s : Z) (st : TrafficLight) :
  shared_car_index (debounce self s st).1 = shared_car_index self
  ∧ shared_waypoints (debounce self s st).1 = shared_waypoints self
  ∧ shared_stop_lines (debounce self s st).1 = shared_stop_lines self.
Proof.
  unfold debounce. case_bool_decide; [done|]. by destruct (_ || _).
Qed.

Lemma loop_iteration_ahead (self : Detector) s st :
  get_stop_line self = Ok (Some s) →
  loop_iteration self (Ok st)
  = ((debounce self s st).1, Ok (debounce self s st).2).
Proof.
  intros Hs. unfold loop_iteration. rewrite Hs.
  by destruct (debounce self s st).
Qed.


Lemma loop_trace_settled (self : Detector) s st n :
  get_stop_line self = Ok (Some s) →
  state self = st →
  STATE_COUNT_THRESHOLD < state_count self →
  last_stop_line self = Some s →
  loop_trace self (replicate n st) = replicate n (Ok None).
Proof.
  revert self. induction n as [|n IH]; intros self Hs Hst Hc Hl; [done|].
  cbn [replicate loop_trace].
  rewrite (loop_iteration_ahead _ s) by done.
  rewrite debounce_quiet by (done || lia). cbn [fst snd].
  f_equal. apply IH; cbn; (done || lia).
Qed.

Lemma loop_trace_counting (self : Detector) s st n :
  get_stop_line self = Ok (Some s) →
  state self = st →
  0 ≤ state_count self ≤ STATE_COUNT_THRESHOLD →
  loop_trace self (replicate n st)
  = (λ k : nat,
       Ok (if decide (state_count self + Z.of_nat k = STATE_COUNT_THRESHOLD)
           then Some (mkTrafficWaypoint s st) else None)) <$> seq 0 n.
Proof.
  revert self. induction n as [|n IH]; intros self Hs Hst Hc; [done|].
  cbn [replicate loop_trace seq fmap list_fmap].
  rewrite (loop_iteration_ahead _ s) by done.
  rewrite <- fmap_S_seq, <- list_fmap_compose.
  destruct (decide (state_count self = STATE_COUNT_THRESHOLD)) as [E|E].
  - rewrite debounce_publish by (done || by left). cbn [fst snd].
    rewrite decide_True by lia. f_equal.
    rewrite loop_trace_settled with (s := s); cbn; try (done || lia).
    symmetry. apply fmap_seq_const. intros k. cbn.
    by rewrite decide_False by lia.
  - rewrite debounce_quiet by (done || lia). cbn [fst snd].
    rewrite decide_False by lia. f_equal.
    rewrite IH by (cbn; done || lia). cbn.
    apply list_fmap_ext. intros _ k _. cbn.
    do 2 f_equal. apply decide_ext. lia.
Qed.

(** C1, as amended.  With a stop line [s] ahead, in the initial debounce
    state or on a raw state [st] that differs from the confirmed one, [n]
    iterations that all see [st] publish exactly once: the event [(s, st)]
    on the fourth iteration (index 3 from 0), when the counter is 3 on
    entry, and nothing on any other iteration. *)
Theorem debouncer_publishes_once_on_fourth_tick
    (self : Detector) (s : Z) (st : TrafficLight) (n : nat) :
  get_stop_line self = Ok (Some s) →
  state self ≠ st ∨ state_count self = 0 →
  loop_trace self (replicate n st)
  = (λ k, Ok (if decide (k = 3%nat)
              then Some (mkTrafficWaypoint s st) else None)) <$> seq 0 n.
Proof.
  intros Hs Hinit.
  destruct (decide (state self = st)) as [Hst|Hne].
  - destruct Hinit as [?|Hc]; [done|].
    rewrite (loop_trace_counting _ s) by (done || rewrite Hc; done).
    apply list_fmap_ext. intros _ k _. cbn.
    do 2 f_equal. apply decide_ext. rewrite Hc.
    unfold STATE_COUNT_THRESHOLD. lia.
  - destruct n as [|n]; [done|].
    cbn [replicate loop_trace seq fmap list_fmap].
    rewrite (loop_iteration_ahead _ s) by done.
    rewrite debounce_changed by done. cbn [fst snd].
    rewrite decide_False by lia. f_equal.
    rewrite (loop_trace_counting _ s) by (cbn; done).
    rewrite <- fmap_S_seq, <- list_fmap_compose.
    apply list_fmap_ext. intros _ k _. cbn.
    do 2 f_equal. apply decide_ext. unfold STATE_COUNT_THRESHOLD. lia.
Qed.

(** C2.  The debounce step of the source is the specification's transition:
    same next state, same event; and with the raw state confirmed, the
    counter above the threshold and a stop line other than the last
    published one, it publishes at once. *)
Theorem debounce_refines_spec (self : Detector) (stop_line : Z)
    (st : TrafficLight) :
  debounce_state (debounce self stop_line st).1
    = (spec_debounce (debounce_state self) stop_line st).1
  ∧ event_of <$> (debounce self stop_line st).2
    = (spec_debounce (debounce_state self) stop_line st).2
  ∧ (state self = st →
     STATE_COUNT_THRESHOLD < state_count self →
     last_stop_line self ≠ Some stop_line →
     (debounce self stop_line st).2 = Some (mkTrafficWaypoint stop_line st)).
Proof.
  unfold debounce, spec_debounce, debounce_state.
  rewrite publish_condition.
  destruct self as [s c l ci w sl]; cbn.
  split_and!.
  - destruct (decide (s = st)) as [->|Hne].
    + rewrite bool_decide_false, decide_False by (intros Hn; by apply Hn).
      rewrite <- decide_bool_decide. by case_decide.
    + by rewrite bool_decide_true, decide_True by congruence.
  - destruct (decide (s = st)) as [->|Hne].
    + rewrite bool_decide_false, decide_False by (intros Hn; by apply Hn).
      rewrite <- decide_bool_decide. by case_decide.
    + by rewrite bool_decide_true, decide_True by congruence.
  - intros -> Hc Hl.
    rewrite bool_decide_false by (intros Hn; by apply Hn).
    rewrite bool_decide_true; [done|].
    right. split; [exact Hc | congruence].
Qed.

End DebouncerFacts.

(** C1 as stated fails on the specification's own example: with the stop
    line at waypoint 2 ahead and RED on every tick from the initial state,
    the third iteration publishes nothing and the fourth publishes
    [(2, RED)]. *)
Lemma debouncer_third_tick_is_silent :
  loop_trace Grid.at_start (replicate 4 RED) !! 2%nat = Some (Ok None)
  ∧ loop_trace Grid.at_start (replicate 4 RED) !! 3%nat
    = Some (Ok (Some (mkTrafficWaypoint 2 RED))).
Proof. split; reflexivity. Qed.

Lemma debouncer_publishes_once_witness :
  get_stop_line Grid.at_start = Ok (Some 2)
  ∧ loop_trace Grid.at_start (replicate 6 RED)
    = [Ok None; Ok None; Ok None;
       Ok (Some (mkTrafficWaypoint 2 RED)); Ok None; Ok None].
Proof.
  split; [reflexivity|].
  apply (debouncer_publishes_once_on_fourth_tick Grid.at_start 2 RED 6);
    [reflexivity | left; discriminate].
Defined.

Lemma debounce_refines_spec_witness :
  state Grid.moved_on = GREEN
  ∧ STATE_COUNT_THRESHOLD < state_count Grid.moved_on
  ∧ last_stop_line Grid.moved_on ≠ Some 3
  ∧ (debounce Grid.moved_on 3 GREEN).2 = Some (mkTrafficWaypoint 3 GREEN).
Proof.
  split_and!; [reflexivity | reflexivity | discriminate |].
  apply (debounce_refines_spec Grid.moved_on 3 GREEN);
    [reflexivity | reflexivity | discriminate].
Defined.

(** ** StopLineIndex: [get_stop_line] *)

Section StopLineFacts.
Context `{Floats}.

Lemma first_after_None (v : Z) (l : list Z) :
  first_after v l = None ↔ ∀ k, k ∈ l → k ≤ v.
Proof.
  induction l as [|a l IH]; cbn.
  - split; [|done]. intros _ k Hk. by apply elem_of_nil in Hk.
  - destruct (Z.gtb_spec a v) as [Hgt|Hle].
    + split; [done|]. intros Hall. specialize (Hall a (list_elem_of_here _ _)). lia.
    + rewrite IH. split.
      * intros Hall k [->|Hk]%elem_of_cons; [done | by apply Hall].
      * intros Hall k Hk. apply Hall. by right.
Qed.

Lemma first_after_Some (v : Z) (l : list Z) (m : Z) :
  StronglySorted Z.le l →
  first_after v l = Some m ↔
  m ∈ l ∧ v < m ∧ ∀ k, k ∈ l → v < k → m ≤ k.
Proof.
  intros Hsorted. induction Hsorted as [|a l Hl IH Ha]; cbn.
  - split; [done|]. by intros [?%elem_of_nil _].
  - rewrite Forall_forall in Ha.
    destruct (Z.gtb_spec a v) as [Hgt|Hle].
    + split.
      * intros [= <-]. split_and!; [by left | lia |].
        intros k [->|Hk]%elem_of_cons _; [done | by apply Ha].
      * intros (Hm & Hvm & Hmin). f_equal.
        apply elem_of_cons in Hm as [->|Hm]; [done|].
        specialize (Hmin a (list_elem_of_here _ _)). specialize (Ha m Hm). lia.
    + rewrite IH. split.
      * intros (Hm & Hvm & Hmin). split_and!; [by right | done |].
        intros k [->|Hk]%elem_of_cons Hvk; [lia | by apply Hmin].
      * intros (Hm & Hvm & Hmin). split_and!; [| done |].
        -- apply elem_of_cons in Hm as [->|Hm]; [lia | done].
        -- intros k Hk. apply Hmin. by right.
Qed.

Lemma list_has_maximum (l : list Z) :
  l ≠ [] → ∃ M, M ∈ l ∧ ∀ k, k ∈ l → k ≤ M.
Proof.
  induction l as [|a [|b l] IH]; [done| |]; intros _.
  - exists a. split; [by left|]. by intros k ->%list_elem_of_singleton.
  - destruct IH as (M & HM & Hmax); [done|].
    exists (Z.max a M). split.
    + destruct (Z.max_spec a M) as [[_ ->]|[_ ->]]; [by right | by left].
    + intros k [->|Hk]%elem_of_cons; [lia|]. specialize (Hmax k Hk). lia.
Qed.

(** C3, as amended.  With the stop-line list as a route load that runs to
    its end stores it (ascending, not empty) and the vehicle index [v]
    defined, [get_stop_line] returns [m] exactly when [m] is the least
    stored index above [v], and returns [None] exactly when [v] is at or
    beyond the greatest stored index. *)
Theorem get_stop_line_is_next_after (self : Detector) (v : Z)
    (stop_lines : list Z) :
  shared_car_index self = Some v →
  shared_stop_lines self = Some stop_lines →
  Sorted Z.le stop_lines →
  stop_lines ≠ [] →
  (∀ m, get_stop_line self = Ok (Some m) ↔
        m ∈ stop_lines ∧ v < m ∧ ∀ k, k ∈ stop_lines → v < k → m ≤ k)
  ∧ (get_stop_line self = Ok None ↔
     ∃ M, M ∈ stop_lines ∧ (∀ k, k ∈ stop_lines → k ≤ M) ∧ M ≤ v).
Proof.
  intros Hv Hl Hsorted Hne. unfold get_stop_line. rewrite Hv, Hl.
  apply Sorted_StronglySorted in Hsorted; [|apply _].
  split.
  - intros m. rewrite <- (first_after_Some v stop_lines m Hsorted).
    split; [by intros [= ->] | by intros ->].
  - split.
    + intros [= Hnone]. rewrite first_after_None in Hnone.
      destruct (list_has_maximum stop_lines Hne) as (M & HM & Hmax).
      exists M. split_and!; [done | done | by apply Hnone].
    + intros (M & HM & Hmax & HMv). do 2 f_equal.
      apply first_after_None. intros k Hk. specialize (Hmax k Hk). lia.
Qed.
End StopLineFacts.

(** C3 as stated fails on a state the node reaches: a route load that
    raises on its third stop line leaves the indices of the first two
    stored in configuration order, 3 before 1; after a pose at waypoint 0
    [get_stop_line] returns 3, the first stored index above 0, and not 1,
    the least. *)
Lemma get_stop_line_skips_nearer_stop_line :
  ∃ self,
    (node_run (ImageNode ImageDetector_init) Cases.failed_load).1.1
    = ImageNode self
    ∧ shared_car_index (image_base self) = Some 0
    ∧ shared_stop_lines (image_base self) = Some [3; 1]
    ∧ get_stop_line (image_base self) = Ok (Some 3)
    ∧ 1 ∈ [3; 1]
    ∧ 0 < 1 < 3.
Proof.
  eexists. split_and!; [reflexivity.. | | lia | lia].
  apply elem_of_cons. right. by left.
Qed.

Lemma get_stop_line_is_next_after_witness :
  Sorted Z.le [2; 3]
  ∧ (get_stop_line Grid.moved_on = Ok (Some 3) ↔
     3 ∈ [2; 3] ∧ 2 < 3 ∧ ∀ k, k ∈ [2; 3] → 2 < k → 3 ≤ k).
Proof.
  assert (Sorted Z.le [2; 3]) as Hsorted by (repeat constructor; lia).
  split; [exact Hsorted|].
  apply (get_stop_line_is_next_after Grid.moved_on 2 [2; 3]);
    [reflexivity | reflexivity | exact Hsorted | discriminate].
Defined.

(** ** StopLineIndex: the route load [waypoints_cb] *)

Section RouteLoadFacts.
Context `{Floats}.




End RouteLoadFacts.



(** ** Python lists and ranges *)

Section PythonFacts.

Lemma py_range_nil (a b : Z) : b ≤ a → py_range a b = [].
Proof. intros Hab. unfold py_range. by replace (Z.to_nat (b - a)) with 0%nat by lia. Qed.

Lemma py_range_cons (a b : Z) : a < b → py_range a b = a :: py_range (a + 1) b.
Proof.
  intros Hab. unfold py_range.
  replace (Z.to_nat (b - a)) with (S (Z.to_nat (b - (a + 1)))) by lia.
  cbn [seq map]. f_equal; [lia|].
  rewrite <- seq_shift, map_map. apply map_ext. intros k. lia.
Qed.

Lemma py_index_nonneg {A} (l : list A) (i : Z) :
  0 ≤ i →
  py_index l i = match l !! Z.to_nat i with
                 | Some a => Ok a
                 | None => Raise IndexError
                 end.
Proof.
  intros Hi. unfold py_index.
  replace (i <? 0) with false by lia.
  replace (0 <=? i) with true by lia. cbn.
  destruct (Z.ltb_spec i (Z.of_nat (length l))) as [Hlt|Hge]; [done|].
  by rewrite lookup_ge_None_2 by lia.
Qed.

Lemma py_index_last {A} (l : list A) (a : A) :
  last l = Some a → py_index l (-1) = Ok a.
Proof.
  intros Hlast. unfold py_index. cbn.
  rewrite last_lookup in Hlast.
  assert (length l ≠ 0%nat) as Hlen.
  { intros E. rewrite E in Hlast. cbn in Hlast. by destruct l. }
  replace (0 <=? -1 + Z.of_nat (length l)) with true by lia.
  replace (-1 + Z.of_nat (length l) <? Z.of_nat (length l)) with true by lia.
  cbn. replace (Z.to_nat (-1 + Z.of_nat (length l))) with (pred (length l)) by lia.
  by rewrite Hlast.
Qed.

End PythonFacts.

(** ** RouteTrack: [pose_cb] *)

Section RouteTrackFacts.
Context `{Floats}.

(** The specification's "less than or equal". *)
Variable float_le : float → float → bool.

Lemma set_shared_car_index_id (self : Detector) (c : Z) :
  shared_car_index self = Some c → set_shared_car_index (Some c) self = self.
Proof. destruct self; cbn. by intros ->. Qed.



End RouteTrackFacts.



(** ** RouteTrack: the vehicle index over time *)

Section VehicleIndexFacts.
Context `{Floats} `{Classifier}.

Lemma py_range_elem (a b i : Z) : i ∈ py_range a b → a ≤ i < b.
Proof.
  unfold py_range. intros (k & -> & Hk%elem_of_seq)%(list_elem_of_fmap_1 _).
  lia.
Qed.

Lemma scan_frame (position : Point float) (waypoints : list (Point float))
    (indices : list Z) (cur : float) (self : Detector) :
  ∃ v, (scan position waypoints indices cur self).1
       = set_shared_car_index v self.
Proof.
  revert cur self. induction indices as [|i rest IH]; intros cur self; cbn.
  - exists (shared_car_index self). by destruct self.
  - destruct (py_index waypoints i) as [wp|e]; cbn;
      [|exists (shared_car_index self); by destruct self].
    destruct (distance position wp) as [d|e]; cbn;
      [|exists (shared_car_index self); by destruct self].
    destruct (float_gt _ _); cbn;
      [exists (shared_car_index self); by destruct self|].
    destruct (IH d (set_shared_car_index (Some i) self)) as [v ->].
    by exists v.
Qed.

Lemma scan_car_index (position : Point float) (waypoints : list (Point float))
    (indices : list Z) (cur : float) (self : Detector) (c : Z) :
  shared_car_index self = Some c →
  ∃ c', shared_car_index (scan position waypoints indices cur self).1 = Some c'
        ∧ (c' = c ∨ c' ∈ indices).
Proof.
  revert cur self c.
  induction indices as [|i rest IH]; intros cur self c Hc; cbn.
  - exists c. by split; [|left].
  - destruct (py_index waypoints i) as [wp|e]; cbn;
      [|exists c; by split; [|left]].
    destruct (distance position wp) as [d|e]; cbn;
      [|exists c; by split; [|left]].
    destruct (float_gt _ _); cbn; [exists c; by split; [|left]|].
    destruct (IH d (set_shared_car_index (Some i) self) i)
      as (c' & Hc' & Hin); [done|].
    exists c'. split; [done|]. right.
    destruct Hin as [->|Hin]; [by left | by right].
Qed.

Lemma reset_car_index_spec (self self1 : Detector) (c1 : Z) :
  reset_car_index self = Ok (self1, c1) →
  shared_car_index self1 = Some c1
  ∧ (∃ v, self1 = set_shared_car_index v self)
  ∧ ∀ c, shared_car_index self = Some c →
         c1 = c ∨ (c1 = 0 ∧ past_last_stop_line self c).
Proof.
  unfold reset_car_index.
  destruct (shared_car_index self) as [c|] eqn:Hc.
  - destruct (shared_stop_lines self) as [stop_lines|] eqn:Hs; [|done].
    destruct (py_index stop_lines (-1)) as [last_line|e] eqn:Hlast; [|done].
    cbn. destruct (Z.gtb_spec c last_line) as [Hgt|Hle]; intros [= <- <-].
    + split_and!; [done | by eexists |].
      intros ? [= <-]. right. split; [done|].
      exists stop_lines, last_line. split_and!; [done | done | lia].
    + split_and!; [done | |].
      * exists (Some c). by rewrite <- Hc; destruct self.
      * intros ? [= <-]. by left.
  - intros [= <- <-]. split_and!; [done | by eexists | done].
Qed.

Lemma pose_cb_frame (self : Detector) (position : Point float) :
  ∃ v, (pose_cb self position).1 = set_shared_car_index v self.
Proof.
  unfold pose_cb.
  destruct (shared_waypoints self) as [waypoints|];
    [|exists (shared_car_index self); by destruct self].
  destruct (reset_car_index self) as [[self1 c1]|e] eqn:Hreset;
    [|exists (shared_car_index self); by destruct self].
  apply reset_car_index_spec in Hreset as (_ & [v ->] & _).
  destruct (py_index waypoints c1) as [wp|e]; [|by exists v].
  destruct (distance position wp) as [d|e]; [|by exists v].
  destruct (scan_frame position waypoints
              (py_range (c1 + 1) (len waypoints)) d
              (set_shared_car_index v self)) as [v' ->].
  by exists v'.
Qed.




Lemma image_tick_base (self : ImageDetector) :
  image_base (image_loop_iteration self).1
  = (loop_iteration (image_base self) (image_get_traffic_light_state self)).1
  ∧ shared_camera_image (image_loop_iteration self).1
    = shared_camera_image self
  ∧ (image_loop_iteration self).2
    = (loop_iteration (image_base self)
         (image_get_traffic_light_state self)).2.
Proof. unfold image_loop_iteration. by destruct (loop_iteration _ _). Qed.

Lemma dummy_tick_base (self : DummyDetector) :
  dummy_base (dummy_loop_iteration self).1
  = (loop_iteration (dummy_base self) (dummy_get_traffic_light_state self)).1
  ∧ shared_traffic_lights (dummy_loop_iteration self).1
    = shared_traffic_lights self
  ∧ tl_map (dummy_loop_iteration self).1 = tl_map self
  ∧ (dummy_loop_iteration self).2
    = (loop_iteration (dummy_base self)
         (dummy_get_traffic_light_state self)).2.
Proof. unfold dummy_loop_iteration. by destruct (loop_iteration _ _). Qed.

Lemma loop_iteration_frame (self : Detector) (ls : result TrafficLight) :
  shared_car_index (loop_iteration self ls).1 = shared_car_index self
  ∧ shared_waypoints (loop_iteration self ls).1 = shared_waypoints self
  ∧ shared_stop_lines (loop_iteration self ls).1 = shared_stop_lines self.
Proof.
  unfold loop_iteration.
  destruct (get_stop_line self) as [[s|]|e]; [|done|done].
  destruct ls as [st|e]; [|done].
  pose proof (debounce_frame self s st) as Hframe.
  by destruct (debounce self s st).
Qed.

Lemma traffic_cb_base (self : DummyDetector) (msg_lights : list Light) :
  dummy_base (traffic_cb self msg_lights).1 = dummy_base self.
Proof.
  unfold traffic_cb.
  destruct (shared_waypoints _); [|done].
  destruct (shared_traffic_lights self).
  - by destruct (update_lights _ _).
  - by destruct (build_lights _ _ _ _) as [[? ?] ?].
Qed.

Lemma bind_stop_lines_car_index (stop_lines : list (Point float))
    (self : Detector) :
  shared_car_index (bind_stop_lines stop_lines self).1
  = shared_car_index self.
Proof.
  revert self. induction stop_lines as [|p ps IH]; intros self; [done|].
  cbn. destruct (get_closest_waypoint self p); [|done]. by rewrite IH.
Qed.

Lemma waypoints_cb_car_index (self : Detector)
    (waypoints stop_lines : list (Point float)) :
  shared_car_index (waypoints_cb self waypoints stop_lines).1 = None.
Proof.
  unfold waypoints_cb. destruct (len stop_lines =? 0); [done|].
  pose proof (bind_stop_lines_car_index stop_lines
                (set_shared_stop_lines (Some [])
                   (set_shared_waypoints (Some waypoints)
                      (set_shared_car_index None self)))) as Hcar.
  by destruct (bind_stop_lines _ _) as [self1 [[]|e]].
Qed.




End VehicleIndexFacts.


(** ** No data *)

Section NoDataFacts.
Context `{Floats} `{Classifier}.

Lemma pose_cb_no_route (self : Detector) (position : Point float) :
  shared_waypoints self = None → pose_cb self position = (self, Ok ()).
Proof. intros Hw. unfold pose_cb. by rewrite Hw. Qed.

Lemma get_stop_line_undefined (self : Detector) :
  shared_car_index self = None → get_stop_line self = Ok None.
Proof. intros Hc. unfold get_stop_line. by rewrite Hc. Qed.

Lemma node_step_route_free (n : Node) (ev : event) :
  route_free n → loads_no_route ev →
  ∃ n', node_step n ev = (n', Ok None) ∧ route_free n'.
Proof.
  intros [Hw Hc] Hev. destruct n as [self|self], ev; cbn in *.
  - rewrite pose_cb_no_route by done. by eexists.
  - subst. by eexists.
  - by eexists.
  - by eexists.
  - unfold image_loop_iteration, loop_iteration.
    rewrite get_stop_line_undefined by done. by eexists.
  - rewrite pose_cb_no_route by done. eexists. split; [done|]. by destruct self.
  - subst. by eexists.
  - by eexists.
  - unfold traffic_cb. rewrite Hw. by eexists.
  - unfold dummy_loop_iteration, loop_iteration.
    rewrite get_stop_line_undefined by done. by eexists.
Qed.

Lemma node_run_route_free (events : list event) (n : Node) :
  route_free n → Forall loads_no_route events →
  ∃ n', node_run n events = (n', [], Ok ()) ∧ route_free n'.
Proof.
  revert n. induction events as [|ev rest IH]; intros n Hn Hall; cbn.
  - by exists n.
  - apply Forall_cons in Hall as [Hev Hrest].
    destruct (node_step_route_free n ev Hn Hev) as (n1 & -> & Hn1).
    destruct (IH n1 Hn1 Hrest) as (n' & -> & Hn').
    by exists n'.
Qed.

(** C9.  Without a route a pose update changes nothing; from the start of
    the process, any run of events that loads no route publishes nothing,
    raises nothing, and ends with the vehicle index undefined and no stop
    line reported; without a camera frame, or without light bindings, the
    light state is UNKNOWN. *)
Theorem no_data_is_neutral :
  (∀ (self : Detector) position,
     shared_waypoints self = None → pose_cb self position = (self, Ok ()))
  ∧ (∀ (n : Node) events,
       n = ImageNode ImageDetector_init ∨ n = DummyNode DummyDetector_init →
       Forall loads_no_route events →
       ∃ n', node_run n events = (n', [], Ok ())
             ∧ shared_waypoints (node_base n') = None
             ∧ shared_car_index (node_base n') = None
             ∧ get_stop_line (node_base n') = Ok None)
  ∧ (∀ self : ImageDetector,
       shared_camera_image self = None →
       image_get_traffic_light_state self = Ok UNKNOWN)
  ∧ (∀ self : DummyDetector,
       shared_traffic_lights self = None →
       dummy_get_traffic_light_state self = Ok UNKNOWN).
Proof.
  split_and!.
  - apply pose_cb_no_route.
  - intros n events Hinit Hall.
    assert (route_free n) as Hn by (by destruct Hinit as [->| ->]).
    destruct (node_run_route_free events n Hn Hall) as (n' & Hrun & Hw & Hc).
    exists n'. split_and!; [done | done | done |].
    by apply get_stop_line_undefined.
  - intros self Hnone. unfold image_get_traffic_light_state. by rewrite Hnone.
  - intros self Hnone. unfold dummy_get_traffic_light_state. by rewrite Hnone.
Qed.




End NoDataFacts.

Lemma no_data_is_neutral_witness :
  ∃ n', node_run (DummyNode DummyDetector_init)
          [Pose (Point.mk 1 0); Lights Grid.lights; Tick;
           Route Grid.route []; Tick]
        = (n', [], Ok ())
        ∧ shared_waypoints (node_base n') = None
        ∧ shared_car_index (node_base n') = None
        ∧ get_stop_line (node_base n') = Ok None.
Proof.
  destruct no_data_is_neutral as (_ & Hrun & _).
  apply Hrun; [by right | repeat constructor].
Defined.


(** ** LightStateSource, ground-truth variant *)

Section DummyFacts.
Context `{Floats}.

Lemma update_lights_frame (msg_lights : list Light)
    (lights : gmap (Point Z) LightData.t) :
  dom (update_lights msg_lights lights).1 = dom lights
  ∧ ∀ p, LightData.index <$> (update_lights msg_lights lights).1 !! p
         = LightData.index <$> lights !! p.
Proof.
  revert lights. induction msg_lights as [|light rest IH]; intros lights;
    [done|]. cbn.
  destruct (get_light_point (light_position light)) as [point|e]; [|done].
  destruct (lights !! point) as [data|] eqn:Hdata; [|done].
  destruct (IH (<[point :=
                   LightData.mk (LightData.index data) (light_state light)]>
                lights)) as [Hdom Hidx].
  split.
  - rewrite Hdom. by apply dom_insert_lookup_L.
  - intros p. rewrite Hidx.
    destruct (decide (point = p)) as [<-|Hne].
    + by rewrite lookup_insert_eq, Hdata.
    + by rewrite lookup_insert_ne.
Qed.

Lemma update_lights_reported (msg_lights : list Light)
    (lights lights' : gmap (Point Z) LightData.t) :
  update_lights msg_lights lights = (lights', Ok ()) →
  ∀ p, LightData.state <$> lights' !! p
       = match reported msg_lights p with
         | Some st => Some st
         | None => LightData.state <$> lights !! p
         end.
Proof.
  revert lights. induction msg_lights as [|light rest IH]; intros lights; cbn.
  - by intros [= <-].
  - destruct (get_light_point (light_position light)) as [point|e]; [|done].
    destruct (lights !! point) as [data|] eqn:Hdata; [|done].
    intros Hrest p. rewrite (IH _ Hrest p).
    destruct (reported rest p); [done|].
    case_decide as Hp.
    + injection Hp as ->. by rewrite lookup_insert_eq.
    + rewrite lookup_insert_ne; [done|]. by intros ->.
Qed.

Lemma build_lights_bound (base : Detector) (msg_lights : list Light)
    (lights : gmap (Point Z) LightData.t) (tlm : gmap Z (Point Z)) :
  (∀ i p, tlm !! i = Some p → is_Some (lights !! p)) →
  ∀ i p, (build_lights base msg_lights lights tlm).1.2 !! i = Some p →
         is_Some ((build_lights base msg_lights lights tlm).1.1 !! p).
Proof.
  revert lights tlm.
  induction msg_lights as [|light rest IH]; intros lights tlm Hinv; cbn;
    [done|].
  destruct (get_light_point (light_position light)) as [point|e]; [|done].
  destruct (get_closest_waypoint base _) as [index|e]; [|done].
  apply IH. intros i p.
  destruct (decide (index = i)) as [<-|Hne].
  - rewrite lookup_insert_eq. intros [= <-]. by rewrite lookup_insert_eq.
  - rewrite lookup_insert_ne by done. intros Hi.
    destruct (decide (point = p)) as [<-|Hp].
    + by rewrite lookup_insert_eq.
    + rewrite lookup_insert_ne by done. by eapply Hinv.
Qed.

Lemma bindings_bound_init : bindings_bound DummyDetector_init.
Proof. done. Qed.

Lemma traffic_cb_bindings_bound (self : DummyDetector)
    (msg_lights : list Light) :
  bindings_bound self → bindings_bound (traffic_cb self msg_lights).1.
Proof.
  unfold bindings_bound, traffic_cb.
  destruct (shared_waypoints _); [|done].
  destruct (shared_traffic_lights self) as [lights|] eqn:Hl.
  - intros Hinv.
    pose proof (update_lights_frame msg_lights lights) as [Hdom _].
    destruct (update_lights msg_lights lights) as [lights' r]. cbn in *.
    intros i p Hi. apply elem_of_dom. rewrite Hdom.
    apply elem_of_dom. by apply (Hinv i p).
  - intros ->.
    pose proof (build_lights_bound (dummy_base self) msg_lights ∅ ∅) as Hb.
    destruct (build_lights _ _ _ _) as [[lights' tlm'] r]. cbn in *.
    intros i p Hi. by eapply Hb.
Qed.

Lemma first_light_after_defined (v : Z) (keys : list Z) :
  first_light_after (Some v) keys = first_after v keys.
Proof. induction keys as [|k keys IH]; [done|]. cbn. by rewrite IH. Qed.

Lemma elem_of_sorted_keys (m : gmap Z (Point Z)) (k : Z) :
  k ∈ sorted (map_to_list m).*1 ↔ k ∈ dom m.
Proof.
  unfold sorted. rewrite merge_sort_Permutation.
  rewrite elem_of_dom, list_elem_of_fmap. split.
  - intros ([k' p] & -> & Hin%elem_of_map_to_list). by exists p.
  - intros [p Hp]. exists (k, p). split; [done|]. by apply elem_of_map_to_list.
Qed.

Lemma sorted_keys_sorted (m : gmap Z (Point Z)) :
  StronglySorted Z.le (sorted (map_to_list m).*1).
Proof. apply (StronglySorted_merge_sort _). Qed.

(** C7, as amended.  With bindings present, the lookup table consistent
    with them and the vehicle index [v] defined: if no bound waypoint index
    is above [v] the answer is UNKNOWN; if [t] is the least bound index
    above [v], both [t] and [v] are indices of the loaded route and the
    distance between the two waypoints is computed, the answer is UNKNOWN
    when that distance is greater than 150, whatever the light reports,
    and otherwise the state stored in the binding of [t]. *)
Theorem ground_truth_light_state (self : DummyDetector)
    (lights : gmap (Point Z) LightData.t) (v : Z) :
  shared_traffic_lights self = Some lights →
  shared_car_index (dummy_base self) = Some v →
  bindings_bound self →
  ((∀ k, k ∈ dom (tl_map self) → k ≤ v) →
   dummy_get_traffic_light_state self = Ok UNKNOWN)
  ∧ (∀ t wp_light wp_car dist,
       t ∈ dom (tl_map self) → v < t →
       (∀ k, k ∈ dom (tl_map self) → v < k → t ≤ k) →
       waypoint_at (shared_waypoints (dummy_base self)) (Some t)
       = Ok wp_light →
       waypoint_at (shared_waypoints (dummy_base self)) (Some v)
       = Ok wp_car →
       distance wp_light wp_car = Ok dist →
       if float_gt dist (float_of_int 150)
       then dummy_get_traffic_light_state self = Ok UNKNOWN
       else ∃ point data,
              tl_map self !! t = Some point
              ∧ lights !! point = Some data
              ∧ dummy_get_traffic_light_state self
                = Ok (LightData.state data)).
Proof.
  intros Hl Hv Hbound. unfold bindings_bound in Hbound. rewrite Hl in Hbound.
  unfold dummy_get_traffic_light_state.
  rewrite Hl, Hv, first_light_after_defined. split.
  - intros Hall.
    rewrite (proj2 (first_after_None v _)); [done|].
    intros k Hk%elem_of_sorted_keys. by apply Hall.
  - intros t wp_light wp_car dist Ht Hvt Hmin Hwl Hwc Hdist.
    rewrite (proj2 (first_after_Some v _ t (sorted_keys_sorted _))).
    2:{ split_and!; [by apply elem_of_sorted_keys | done |].
        intros k Hk%elem_of_sorted_keys. by apply Hmin. }
    rewrite Hwl, Hwc. cbn. rewrite Hdist. cbn.
    destruct (float_gt _ _); [done|].
    apply elem_of_dom in Ht as [point Hpoint].
    destruct (Hbound t point Hpoint) as [data Hdata].
    exists point, data. split_and!; [done | done |].
    unfold py_getitem. rewrite Hpoint. cbn. by rewrite Hdata.
Qed.

(** C8, as amended.  A light message handled without a route changes
    nothing.  With a route loaded, a message that finds no bindings builds
    them; a message that finds bindings keeps the set of keys, the
    waypoint index of every key, the lookup table and the base object, and
    when it runs to its end every key holds the state the message reports
    last for it, or its old state if the message does not mention it. *)
Theorem traffic_cb_binds_once_then_updates (self : DummyDetector)
    (msg_lights : list Light) :
  (shared_waypoints (dummy_base self) = None →
   traffic_cb self msg_lights = (self, Ok ()))
  ∧ (is_Some (shared_waypoints (dummy_base self)) →
     shared_traffic_lights self = None →
     is_Some (shared_traffic_lights (traffic_cb self msg_lights).1))
  ∧ (∀ lights,
       shared_traffic_lights self = Some lights →
       ∃ lights',
         shared_traffic_lights (traffic_cb self msg_lights).1 = Some lights'
         ∧ dom lights' = dom lights
         ∧ (∀ p, LightData.index <$> lights' !! p
                 = LightData.index <$> lights !! p)
         ∧ tl_map (traffic_cb self msg_lights).1 = tl_map self
         ∧ dummy_base (traffic_cb self msg_lights).1 = dummy_base self
         ∧ (is_Some (shared_waypoints (dummy_base self)) →
            (traffic_cb self msg_lights).2 = Ok () →
            ∀ p, LightData.state <$> lights' !! p
                 = match reported msg_lights p with
                   | Some st => Some st
                   | None => LightData.state <$> lights !! p
                   end)).
Proof.
  unfold traffic_cb. split_and!.
  - by intros ->.
  - intros [waypoints ->] ->.
    by destruct (build_lights _ _ _ _) as [[lights' tlm'] r].
  - intros lights Hl. rewrite Hl.
    destruct (shared_waypoints _) as [waypoints|]; cbn.
    + pose proof (update_lights_frame msg_lights lights) as [Hdom Hidx].
      pose proof (update_lights_reported msg_lights lights) as Hrep.
      destruct (update_lights msg_lights lights) as [lights' r]. cbn in *.
      exists lights'. split_and!; try done.
      intros _ ->. by apply Hrep.
    + exists lights. by split_and!.
Qed.

End DummyFacts.

(** C8 as stated fails: the first light message received, arriving before
    any route, builds no binding; the bindings are built by a later
    message, once a route is loaded. *)
Lemma first_light_message_before_route_binds_nothing :
  shared_traffic_lights (traffic_cb DummyDetector_init Grid.lights).1 = None
  ∧ ∃ self,
      (node_run (DummyNode DummyDetector_init)
         [Lights Grid.lights; Route Grid.route Grid.stop_lines;
          Lights Grid.lights]).1.1 = DummyNode self
      ∧ shared_traffic_lights self
        = Some {[Point.mk 21 0 := LightData.mk 2 RED]}.
Proof. split; [reflexivity|]. eexists. split; reflexivity. Qed.

Lemma ground_truth_light_state_witness :
  shared_traffic_lights Grid.far_bound
  = Some {[Point.mk 201 0 := LightData.mk 2 RED]}
  ∧ dummy_get_traffic_light_state Grid.far_bound = Ok UNKNOWN.
Proof.
  assert (tl_map Grid.far_bound = {[2 := Point.mk 201 0]}) as Htl
    by reflexivity.
  split; [reflexivity|].
  destruct (ground_truth_light_state Grid.far_bound
              {[Point.mk 201 0 := LightData.mk 2 RED]} 0) as [_ Hnext];
    [reflexivity | reflexivity | by apply traffic_cb_bindings_bound |].
  apply (Hnext 2 (Point.mk 200 0) (Point.mk 0 0) 200).
  - rewrite Htl, dom_singleton_L. by apply elem_of_singleton.
  - lia.
  - intros k. rewrite Htl, dom_singleton_L. intros ->%elem_of_singleton. lia.
  - reflexivity.
  - reflexivity.
  - reflexivity.
Defined.

(** C7 as stated fails on a state the node reaches: the lights are bound
    on one route, a shorter route is loaded, and the least bound waypoint
    index above the vehicle index is no index of the new route; bindings
    are present and the vehicle index is defined, and the light state is
    neither UNKNOWN nor a reported state: line 230 raises [IndexError]. *)
Lemma ground_truth_light_state_raises_after_reload :
  ∃ self,
    (node_run (DummyNode DummyDetector_init) Cases.reload).1.1
    = DummyNode self
    ∧ shared_traffic_lights self
      = Some {[Point.mk 21 0 := LightData.mk 2 RED]}
    ∧ tl_map self = {[2 := Point.mk 21 0]}
    ∧ shared_car_index (dummy_base self) = Some 0
    ∧ shared_waypoints (dummy_base self) = Some Cases.short_route
    ∧ dummy_get_traffic_light_state self = Raise IndexError.
Proof. eexists. split_and!; reflexivity. Qed.

Lemma traffic_cb_binds_once_then_updates_witness :
  ∃ lights',
    shared_traffic_lights
      (traffic_cb Grid.dummy_bound Grid.lights_green).1
    = Some lights'
    ∧ dom lights' = dom ({[Point.mk 21 0 := LightData.mk 2 RED]}
                         : gmap (Point Z) LightData.t)
    ∧ tl_map (traffic_cb Grid.dummy_bound Grid.lights_green).1
      = tl_map Grid.dummy_bound.
Proof.
  destruct (traffic_cb_binds_once_then_updates Grid.dummy_bound
              Grid.lights_green) as (_ & _ & Hupdate).
  destruct (Hupdate {[Point.mk 21 0 := LightData.mk 2 RED]})
    as (lights' & Hl & Hdom & _ & Htl & _); [reflexivity|].
  exists lights'. by split_and!.
Defined.

(** ** Reachable states

    The assumptions made above on the vehicle index and on the light
    bindings hold of every state the node reaches from its start. *)

Section ReachableFacts.
Context `{Floats} `{Classifier}.

Lemma reset_car_index_nonneg (self self1 : Detector) (c1 : Z) :
  (∀ c, shared_car_index self = Some c → 0 ≤ c) →
  reset_car_index self = Ok (self1, c1) → 0 ≤ c1.
Proof.
  intros Hinv Hreset.
  destruct (shared_car_index self) as [c|] eqn:Hc.
  - apply reset_car_index_spec in Hreset as (_ & _ & Hcases).
    destruct (Hcases c Hc) as [->|[-> _]]; [by apply Hinv | done].
  - unfold reset_car_index in Hreset. rewrite Hc in Hreset.
    by injection Hreset as _ <-.
Qed.

Lemma pose_cb_car_index_nonneg (self : Detector) (position : Point float) :
  (∀ c, shared_car_index self = Some c → 0 ≤ c) →
  ∀ c', shared_car_index (pose_cb self position).1 = Some c' → 0 ≤ c'.
Proof.
  intros Hinv c'. unfold pose_cb.
  destruct (shared_waypoints self) as [waypoints|]; [|apply Hinv].
  destruct (reset_car_index self) as [[self1 c1]|e] eqn:Hreset; [|apply Hinv].
  pose proof (reset_car_index_nonneg _ _ _ Hinv Hreset) as Hc1.
  apply reset_car_index_spec in Hreset as (Hcar1 & _ & _).
  destruct (py_index waypoints c1) as [wp|e]; cbn;
    [|rewrite Hcar1; by intros [= <-]].
  destruct (distance position wp) as [d|e]; cbn;
    [|rewrite Hcar1; by intros [= <-]].
  destruct (scan_car_index position waypoints
              (py_range (c1 + 1) (len waypoints)) d
              self1 c1 Hcar1) as (c'' & -> & Hin).
  intros [= <-]. destruct Hin as [->|Hin%py_range_elem]; lia.
Qed.

Lemma pose_cb_invariant (self : Detector) (position : Point float) :
  (∀ c, shared_car_index self = Some c → 0 ≤ c) →
  (shared_waypoints self = None → shared_car_index self = None) →
  (∀ c, shared_car_index (pose_cb self position).1 = Some c → 0 ≤ c)
  ∧ (shared_waypoints (pose_cb self position).1 = None →
     shared_car_index (pose_cb self position).1 = None).
Proof.
  intros Hnonneg Hnone. split; [by apply pose_cb_car_index_nonneg|].
  destruct (pose_cb_frame self position) as [v Hv]. rewrite Hv. cbn.
  intros Hw. rewrite pose_cb_no_route in Hv by done. cbn in Hv.
  rewrite <- (Hnone Hw), Hv. done.
Qed.

Lemma node_step_invariant (n : Node) (ev : event) :
  node_invariant n → node_invariant (node_step n ev).1.
Proof.
  intros (Hnonneg & Hnone & Hbound). unfold node_invariant.
  destruct n as [self|self], ev;
    cbn [node_step node_base fst snd image_base dummy_base image_cb
         shared_traffic_lights tl_map bindings_bound] in *.
  - by split; [|split]; [apply pose_cb_invariant ..|].
  - rewrite waypoints_cb_car_index. by split_and!.
  - done.
  - done.
  - pose proof (image_tick_base self) as (Hb & _).
    pose proof (loop_iteration_frame (image_base self)
                  (image_get_traffic_light_state self)) as (Hc & Hw & _).
    destruct (image_loop_iteration self); cbn in *.
    rewrite Hb, Hc, Hw. by split_and!.
  - by split; [|split]; [apply pose_cb_invariant ..|].
  - rewrite waypoints_cb_car_index. by split_and!.
  - done.
  - rewrite traffic_cb_base. split_and!; [done | done |].
    by apply traffic_cb_bindings_bound.
  - pose proof (dummy_tick_base self) as (Hb & Hl & Ht & _).
    pose proof (loop_iteration_frame (dummy_base self)
                  (dummy_get_traffic_light_state self)) as (Hc & Hw & _).
    destruct (dummy_loop_iteration self) as [self' r]; cbn in *.
    rewrite Hb, Hc, Hw. split_and!; [done | done |].
    unfold bindings_bound in *. by rewrite Hl, Ht.
Qed.

Lemma node_run_invariant (events : list event) (n : Node) :
  node_invariant n → node_invariant (node_run n events).1.1.
Proof.
  revert n. induction events as [|ev rest IH]; intros n Hn; [done|].
  cbn. pose proof (node_step_invariant n ev Hn) as Hn1.
  destruct (node_step n ev) as [n1 [published|e]]; [|done].
  specialize (IH n1 Hn1).
  by destruct (node_run n1 rest) as [[n' out] r].
Qed.

Lemma node_invariant_init :
  node_invariant (ImageNode ImageDetector_init)
  ∧ node_invariant (DummyNode DummyDetector_init).
Proof. by split; split_and!. Qed.

End ReachableFacts.

(** * Further properties *)

(** ** [get_closest_waypoint] *)

Section ClosestFacts.
Context `{Floats}.

Lemma closest_loop_raise (point : Point float) (waypoints : list (Point float))
    (i : Z) (cd : float) (ci : option Z) (e : exn) :
  mapM (λ wp, distance wp point) waypoints = Raise e →
  closest_loop point waypoints i cd ci = Raise e.
Proof.
  revert i cd ci. induction waypoints as [|wp rest IH]; intros i cd ci;
    [done|]. cbn.
  destruct (distance wp point) as [d|e']; cbn; [|by intros [= ->]].
  destruct (mapM _ rest) as [ds|e'] eqn:Hrest; cbn; [done|].
  intros [= <-]. by destruct (float_lt d cd); apply IH.
Qed.

Lemma closest_loop_bound (point : Point float) (waypoints : list (Point float))
    (distances : list float) (i : Z) (cd : float) (k : Z) :
  mapM (λ wp, distance wp point) waypoints = Ok distances →
  ∃ k', closest_loop point waypoints i cd (Some k) = Ok (Some k').
Proof.
  revert distances i cd k. induction waypoints as [|wp rest IH];
    intros distances i cd k; cbn; [by eexists|].
  destruct (distance wp point) as [d|e]; cbn; [|done].
  destruct (mapM _ rest) as [ds|e] eqn:Hrest; cbn; [|done].
  intros _. destruct (float_lt d cd); by eapply IH.
Qed.

Lemma closest_loop_unbound (point : Point float)
    (waypoints : list (Point float)) (distances : list float) (i : Z)
    (cd : float) :
  mapM (λ wp, distance wp point) waypoints = Ok distances →
  closest_loop point waypoints i cd None = Ok None ↔
  Forall (λ d, float_lt d cd = false) distances.
Proof.
  revert distances i. induction waypoints as [|wp rest IH];
    intros distances i; cbn.
  - by intros [= <-].
  - destruct (distance wp point) as [d|e]; cbn; [|done].
    destruct (mapM _ rest) as [ds|e] eqn:Hrest; cbn; [|done].
    intros [= <-]. destruct (float_lt d cd) eqn:Hlt.
    + split.
      * intros Hnone.
        destruct (closest_loop_bound point rest ds (i + 1) d i Hrest)
          as [k Hk]. congruence.
      * intros [Hd _]%Forall_cons. congruence.
    + rewrite (IH ds) by done.
      split; [by constructor | by intros [_ ?]%Forall_cons].
Qed.

Lemma closest_loop_range (point : Point float) (waypoints : list (Point float))
    (i : Z) (cd : float) (ci : option Z) (k : Z) :
  closest_loop point waypoints i cd ci = Ok (Some k) →
  ci = Some k ∨ i ≤ k < i + len waypoints.
Proof.
  revert i cd ci. induction waypoints as [|wp rest IH]; intros i cd ci; cbn.
  - intros [= ->]. by left.
  - unfold len in *. cbn [length].
    destruct (distance wp point) as [d|e]; cbn; [|done].
    destruct (float_lt _ _); intros [Hk|Hk]%IH.
    + injection Hk as <-. right. lia.
    + right. lia.
    + by left.
    + right. lia.
Qed.

(** X1.  [get_closest_waypoint] returns -1 when there is no route or the
    route has no waypoint.  With waypoints, if computing the distance of
    some waypoint raises, it raises that exception, the first in route
    order; with all distances computed it raises [UnboundLocalError] when
    none of them is below [sys.maxint], and otherwise returns an index of
    the route. *)
Theorem get_closest_waypoint_outcome (self : Detector) (point : Point float) :
  match shared_waypoints self with
  | None | Some [] => get_closest_waypoint self point = Ok (-1)
  | Some waypoints =>
      match mapM (λ wp, distance wp point) waypoints with
      | Raise e => get_closest_waypoint self point = Raise e
      | Ok distances =>
          if decide (Forall (λ d, float_lt d (float_of_int sys_maxint)
                                  = false) distances)
          then get_closest_waypoint self point = Raise UnboundLocalError
          else ∃ i, get_closest_waypoint self point = Ok i
                    ∧ 0 ≤ i < len waypoints
      end
  end.
Proof.
  unfold get_closest_waypoint.
  destruct (shared_waypoints self) as [[|wp0 rest]|]; [done| |done].
  set (waypoints := wp0 :: rest).
  destruct (Z.eqb_spec (len waypoints) 0) as [E|_];
    [unfold len in E; cbn in E; lia|].
  destruct (mapM _ waypoints) as [distances|e] eqn:Hdist.
  - case_decide as Hall.
    + apply (closest_loop_unbound point waypoints distances 0 _ Hdist)
        in Hall. by rewrite Hall.
    + destruct (closest_loop point waypoints 0 _ None) as [[k|]|e] eqn:Hk.
      * exists k. split; [done|].
        apply closest_loop_range in Hk as [?|?]; [done | lia].
      * by apply (closest_loop_unbound point waypoints distances 0 _ Hdist)
          in Hk.
      * exfalso. clear Hall. revert Hk Hdist. generalize 0 at 1.
        generalize (float_of_int sys_maxint). generalize (@None Z).
        clear. revert distances.
        induction waypoints as [|wp ws IH]; intros ds ci cd i; [done|].
        cbn. destruct (distance wp point) as [d|e']; cbn; [|done].
        destruct (mapM _ ws) as [ds'|e'] eqn:Hws; cbn; [|done].
        intros Hk _. destruct (float_lt d cd); by eapply IH.
  - by rewrite (closest_loop_raise _ _ _ _ _ _ Hdist).
Qed.
End ClosestFacts.

Section ClosestMinimal.
Context `{Floats}.
(** [<] on floats as on numbers: a strict order in which being not
    smaller is transitive. *)
Hypothesis lt_irrefl : ∀ a, float_lt a a = false.
Hypothesis lt_trans :
  ∀ a b c, float_lt a b = true → float_lt b c = true → float_lt a c = true.
Hypothesis lt_cotrans :
  ∀ a b c, float_lt a c = true → float_lt a b = true ∨ float_lt b c = true.


End ClosestMinimal.

(** ** [pose_cb] on a loaded route *)

Section PoseScanFacts.
Context `{Floats}.

Lemma scan_result (position : Point float) (route : list (Point float))
    (k : nat) (c : Z) (wpc : Point float) (dc : float) (self : Detector) :
  k = Z.to_nat (len route - 1 - c) →
  shared_car_index self = Some c →
  0 ≤ c →
  route !! Z.to_nat c = Some wpc →
  distance position wpc = Ok dc →
  ∃ c' r,
    scan position route (py_range (c + 1) (len route)) dc self
    = (set_shared_car_index (Some c') self, r)
    ∧ c ≤ c' < len route
    ∧ descends position route c c'
    ∧ (∃ wp d, route !! Z.to_nat c' = Some wp ∧ distance position wp = Ok d)
    ∧ match r with
      | Ok _ => stops position route c'
      | Raise e => ∃ wp, wp ∈ route ∧ distance position wp = Raise e
      end.
Proof.
  revert c wpc dc self.
  induction k as [|k IH]; intros c wpc dc self Hk Hc Hc0 Hwpc Hdc.
  - pose proof (lookup_lt_Some _ _ _ Hwpc) as Hlen.
    exists c, (Ok ()). rewrite py_range_nil by (unfold len in *; lia). cbn.
    rewrite set_shared_car_index_id by done.
    split_and!;
      [done | lia | unfold len; lia | intros i ?; lia | by eexists _, _ |].
    intros wp wp' _ Hwp'. apply lookup_lt_Some in Hwp'. unfold len in *. lia.
  - rewrite py_range_cons by lia. cbn [scan].
    rewrite py_index_nonneg by lia.
    destruct (route !! Z.to_nat (c + 1)) as [wp1|] eqn:Hwp1.
    2:{ apply lookup_ge_None in Hwp1. unfold len in *. lia. }
    pose proof (lookup_lt_Some _ _ _ Hwpc) as Hlen.
    destruct (distance position wp1) as [d1|e] eqn:Hd1.
    2:{ exists c, (Raise e). rewrite set_shared_car_index_id by done.
        split_and!;
          [done | lia | unfold len; lia | intros i ?; lia | by eexists _, _ |].
        exists wp1. split; [by eapply list_elem_of_lookup_2 | done]. }
    destruct (float_gt d1 dc) eqn:Hgt.
    + exists c, (Ok ()). rewrite set_shared_car_index_id by done.
      split_and!;
        [done | lia | unfold len; lia | intros i ?; lia | by eexists _, _ |].
      intros wp wp' Hwp Hwp'. simplify_eq. by exists dc, d1.
    + destruct (IH (c + 1) wp1 d1 (set_shared_car_index (Some (c + 1)) self))
        as (c' & r & -> & Hrange & Hdesc & Hat & Hr);
        [lia | done | lia | done | done |].
      exists c', r. split_and!; [done | lia | lia | | done | done].
      intros i Hi wp wp' Hwp Hwp'.
      destruct (decide (i = c)) as [->|Hne].
      * simplify_eq. by exists dc, d1.
      * apply (Hdesc i); [lia | done | done].
Qed.

Lemma pose_cb_result (self : Detector) (route : list (Point float))
    (stop_lines : list Z) (position : Point float) :
  route_track_ready self route stop_lines →
  ∃ self1 c1 c' r,
    reset_car_index self = Ok (self1, c1)
    ∧ pose_cb self position = (set_shared_car_index (Some c') self, r)
    ∧ 0 ≤ c1 ≤ c' ∧ c' < len route
    ∧ match r with
      | Ok _ =>
          descends position route c1 c'
          ∧ stops position route c'
          ∧ ∃ wp d, route !! Z.to_nat c' = Some wp
                    ∧ distance position wp = Ok d
      | Raise e => ∃ wp, wp ∈ route ∧ distance position wp = Raise e
      end.
Proof.
  intros (Hw & Hs & Hroute & Hstops & Hrange).
  assert (∃ self1 c1, reset_car_index self = Ok (self1, c1)
                      ∧ 0 ≤ c1 < len route) as (self1 & c1 & Hreset & Hc1).
  { assert (0 < len route) as Hlen
      by (destruct route; [done | unfold len; cbn; lia]).
    unfold reset_car_index. rewrite Hs.
    destruct (shared_car_index self) as [c|] eqn:Hc; [|by eexists _, _].
    destruct (last stop_lines) as [last_line|] eqn:Hlast.
    2:{ by apply last_None in Hlast. }
    rewrite (py_index_last _ _ Hlast). cbn.
    destruct (c >? last_line); eexists _, _; split; try done.
    by apply Hrange. }
  exists self1, c1. unfold pose_cb. rewrite Hw, Hreset.
  pose proof Hreset as (Hcar1 & [v ->] & _)%reset_car_index_spec.
  rewrite py_index_nonneg by lia.
  destruct (route !! Z.to_nat c1) as [wpc|] eqn:Hwpc.
  2:{ apply lookup_ge_None in Hwpc. unfold len in *. lia. }
  destruct (distance position wpc) as [dc|e] eqn:Hdc.
  - destruct (scan_result position route _ c1 wpc dc
                (set_shared_car_index v self) eq_refl Hcar1)
      as (c' & r & -> & Hc' & Hdesc & Hat & Hr); [lia | done | done |].
    exists c', r. split_and!; [done | done | lia | lia | lia |].
    by destruct r.
  - exists c1, (Raise e). cbn in Hcar1. subst v.
    split_and!; [done | done | lia | lia | lia |].
    exists wpc. split; [by eapply list_elem_of_lookup_2 | done].
Qed.
End PoseScanFacts.

Section PoseFacts.
Context `{Floats}.

(** X3.  With a non-empty route and non-empty stop lines loaded and the
    vehicle index undefined or inside the route, a pose update changes only
    the vehicle index and leaves it defined and inside the route, so these
    conditions hold again after the update; and it either ends normally or
    raises the exception of the distance computation for a waypoint of the
    route. *)
Theorem pose_cb_keeps_index_in_route (self : Detector)
    (route : list (Point float)) (stop_lines : list Z)
    (position : Point float) :
  route_track_ready self route stop_lines →
  ∃ c',
    (pose_cb self position).1
    = mkDetector (state self) (state_count self) (last_stop_line self)
        (Some c') (shared_waypoints self) (shared_stop_lines self)
    ∧ 0 ≤ c' < len route
    ∧ route_track_ready (pose_cb self position).1 route stop_lines
    ∧ ((pose_cb self position).2 = Ok ()
       ∨ ∃ e wp, (pose_cb self position).2 = Raise e
                 ∧ wp ∈ route
                 ∧ distance position wp = Raise e).
Proof.
  intros Hready.
  destruct (pose_cb_result self route stop_lines position Hready)
    as (self1 & c1 & c' & r & _ & Hpose & Hc1 & Hc' & Hr).
  exists c'. rewrite Hpose. split_and!; [done | lia | done | |].
  - destruct Hready as (Hw & Hs & Hroute & Hstops & _).
    split_and!; try done. cbn. intros c [= <-]. lia.
  - destruct r as [[]|e]; [by left|]. right.
    destruct Hr as (wp & Hwp & Hraise). by exists e, wp.
Qed.

(** X4.  With a non-empty route and non-empty stop lines loaded and the
    vehicle index undefined or inside the route, the index a pose update
    that ends normally stores is reached from the start index (0 after a
    reset, else the old index) through steps none of which leads to a
    waypoint farther from the pose, and the waypoint after the stored
    index, if any, is farther from the pose: the scan ends at the first
    local minimum of the distance. *)
Theorem pose_cb_stops_at_first_local_minimum (self : Detector)
    (route : list (Point float)) (stop_lines : list Z)
    (position : Point float) :
  route_track_ready self route stop_lines →
  (pose_cb self position).2 = Ok () →
  ∃ self1 c1 c',
    reset_car_index self = Ok (self1, c1)
    ∧ shared_car_index (pose_cb self position).1 = Some c'
    ∧ c1 ≤ c'
    ∧ descends position route c1 c'
    ∧ stops position route c'.
Proof.
  intros Hready.
  destruct (pose_cb_result self route stop_lines position Hready)
    as (self1 & c1 & c' & r & Hreset & Hpose & Hc1 & Hc' & Hr).
  rewrite Hpose. cbn. intros ->. destruct Hr as (Hdesc & Hstop & _).
  exists self1, c1, c'. split_and!; try done. lia.
Qed.

(** X5.  With a non-empty route and non-empty stop lines loaded and the
    vehicle index undefined or inside the route, if a pose update ends
    normally and the index it stores is not beyond the last stop line, a
    second pose update with the same position changes nothing and ends
    normally. *)
Theorem pose_cb_idempotent (self : Detector) (route : list (Point float))
    (stop_lines : list Z) (position : Point float) (c' last_line : Z) :
  route_track_ready self route stop_lines →
  (pose_cb self position).2 = Ok () →
  shared_car_index (pose_cb self position).1 = Some c' →
  last stop_lines = Some last_line →
  c' ≤ last_line →
  pose_cb (pose_cb self position).1 position
  = ((pose_cb self position).1, Ok ()).
Proof.
  intros Hready Hok Hcar Hlast Hle.
  destruct (pose_cb_result self route stop_lines position Hready)
    as (self1 & c1 & c'' & r & _ & Hpose & Hc1 & Hc' & Hr).
  rewrite Hpose in *. cbn in Hcar, Hok. injection Hcar as ->. subst r.
  destruct Hr as (_ & Hstop & wp & d & Hwp & Hd).
  destruct Hready as (Hw & Hs & _).
  set (self' := set_shared_car_index (Some c') self).
  unfold pose_cb, reset_car_index. cbn. rewrite Hw, Hs.
  rewrite (py_index_last _ _ Hlast). cbn.
  replace (c' >? last_line) with false by lia.
  rewrite py_index_nonneg by lia. rewrite Hwp, Hd.
  destruct (decide (c' + 1 < len route)) as [Hnext|Hend].
  - destruct (route !! Z.to_nat (c' + 1)) as [wp'|] eqn:Hwp'.
    2:{ apply lookup_ge_None in Hwp'. unfold len in *. lia. }
    destruct (Hstop wp wp' Hwp Hwp') as (d0 & d' & Hd0 & Hd' & Hgt).
    assert (d0 = d) as -> by congruence.
    rewrite py_range_cons by done. cbn [scan].
    rewrite py_index_nonneg by lia. by rewrite Hwp', Hd', Hgt.
  - by rewrite py_range_nil by lia.
Qed.

End PoseFacts.

(** ** [waypoints_cb]: the exception and the empty route *)

Section RouteLoadEdges.
Context `{Floats}.

Lemma bind_stop_lines_raise (stop_lines : list (Point float))
    (self self' : Detector) (acc : list Z) (e : exn) :
  shared_stop_lines self = Some acc →
  bind_stop_lines stop_lines self = (self', Raise e) →
  ∃ before position after indices,
    stop_lines = before ++ position :: after
    ∧ Forall2 (λ q index, get_closest_waypoint self q = Ok index)
        before indices
    ∧ get_closest_waypoint self position = Raise e
    ∧ self' = set_shared_stop_lines (Some (acc ++ indices)) self.
Proof.
  revert self acc. induction stop_lines as [|p ps IH]; intros self acc Hacc;
    cbn; [done|].
  destruct (get_closest_waypoint self p) as [i|e'] eqn:Hp.
  - intros Hrest. rewrite Hacc in Hrest. cbn in Hrest.
    apply IH with (acc := acc ++ [i]) in Hrest
      as (before & q & after & indices & -> & Hall & Hq & ->); [|done].
    exists (p :: before), q, after, (i :: indices). split_and!.
    + done.
    + constructor; [done|].
      eapply Forall2_impl; [exact Hall|]. by intros ?? <-.
    + by rewrite <- Hq.
    + by rewrite <- app_assoc.
  - intros [= <- <-]. exists [], p, ps, []. split_and!; try done.
    rewrite app_nil_r, <- Hacc. by destruct self.
Qed.

Lemma closest_loop_raises (point : Point float)
    (waypoints : list (Point float)) (i : Z) (cd : float) (ci : option Z)
    (e : exn) :
  closest_loop point waypoints i cd ci = Raise e →
  ∃ wp, wp ∈ waypoints ∧ distance wp point = Raise e.
Proof.
  revert i cd ci. induction waypoints as [|wp rest IH]; intros i cd ci;
    [done|]. cbn.
  destruct (distance wp point) as [d|e'] eqn:Hd; cbn.
  - intros Hrest.
    assert (∃ wp', wp' ∈ rest ∧ distance wp' point = Raise e)
      as (wp' & Hin & Hwp')
      by (destruct (float_lt d cd); by eapply IH).
    exists wp'. split; [by right | done].
  - intros [= ->]. exists wp. split; [by left | done].
Qed.

Lemma get_closest_waypoint_raises (self : Detector) (p : Point float)
    (e : exn) :
  get_closest_waypoint self p = Raise e →
  e = UnboundLocalError
  ∨ ∃ waypoints wp, shared_waypoints self = Some waypoints
                    ∧ wp ∈ waypoints
                    ∧ distance wp p = Raise e.
Proof.
  unfold get_closest_waypoint.
  destruct (shared_waypoints self) as [waypoints|]; [|done].
  destruct (len waypoints =? 0); [done|].
  destruct (closest_loop _ _ _ _ _) as [[k|]|e'] eqn:Hloop; cbn; [done | |].
  - intros [= <-]. by left.
  - intros [= <-]. right.
    apply closest_loop_raises in Hloop as (wp & Hin & Hwp).
    by exists waypoints, wp.
Qed.

(** X6.  A route load raises only the exception of [get_closest_waypoint]
    on a stop line: [UnboundLocalError], or the exception of the distance
    computation for a waypoint of the new route.  It then leaves the new
    route stored, the vehicle index undefined, and as stop lines the
    indices of the stop lines before that one, in configuration order and
    not sorted. *)
Theorem waypoints_cb_failure (self self' : Detector)
    (waypoints stop_lines : list (Point float)) (e : exn) :
  waypoints_cb self waypoints stop_lines = (self', Raise e) →
  shared_waypoints self' = Some waypoints
  ∧ shared_car_index self' = None
  ∧ ∃ before position after indices,
      stop_lines = before ++ position :: after
      ∧ Forall2 (λ q index, get_closest_waypoint self' q = Ok index)
          before indices
      ∧ get_closest_waypoint self' position = Raise e
      ∧ (e = UnboundLocalError
         ∨ ∃ wp, wp ∈ waypoints ∧ distance wp position = Raise e)
      ∧ shared_stop_lines self' = Some indices.
Proof.
  unfold waypoints_cb. destruct (len stop_lines =? 0); [done|].
  destruct (bind_stop_lines _ _) as [self1 [[]|e1]] eqn:Hbind; [done|].
  intros [= <- <-].
  apply bind_stop_lines_raise with (acc := []) in Hbind
    as (before & q & after & indices & -> & Hall & Hq & ->); [|done].
  split_and!; [done | done |].
  exists before, q, after, indices. split_and!; [done | | done | | done].
  - eapply Forall2_impl; [exact Hall|]. by intros ?? <-.
  - apply get_closest_waypoint_raises in Hq
      as [->|(ws & wp & [= <-] & Hin & Hwp)]; [by left | right].
    by exists wp.
Qed.

(** X7.  A route message without waypoints, handled with a non-empty
    stop-line configuration, stores the empty route and one stop line -1
    per configured position, and raises nothing.  From then on every pose
    update sets the vehicle index to 0 and raises [IndexError], and no stop
    line is ever ahead. *)
Theorem empty_route_load (self : Detector) (stop_lines : list (Point float))
    (position : Point float) :
  stop_lines ≠ [] →
  ∃ self',
    waypoints_cb self [] stop_lines = (self', Ok ())
    ∧ shared_waypoints self' = Some []
    ∧ shared_stop_lines self' = Some (replicate (length stop_lines) (-1))
    ∧ pose_cb self' position
      = (set_shared_car_index (Some 0) self', Raise IndexError)
    ∧ pose_cb (set_shared_car_index (Some 0) self') position
      = (set_shared_car_index (Some 0) self', Raise IndexError)
    ∧ get_stop_line (set_shared_car_index (Some 0) self') = Ok None.
Proof.
  intros Hne.
  assert (∀ ps acc (d : Detector),
    shared_waypoints d = Some [] → shared_stop_lines d = Some acc →
    bind_stop_lines ps d
    = (set_shared_stop_lines
         (Some (acc ++ replicate (length ps) (-1))) d, Ok ())) as Hbind.
  { induction ps as [|p ps IH]; intros acc d Hw Hs; cbn [bind_stop_lines].
    - cbn. rewrite app_nil_r, <- Hs. by destruct d.
    - assert (get_closest_waypoint d p = Ok (-1)) as ->
        by (unfold get_closest_waypoint; by rewrite Hw).
      rewrite Hs, (IH (acc ++ [-1])) by done.
      cbn. by rewrite <- app_assoc. }
  assert (sorted (replicate (length stop_lines) (-1))
          = replicate (length stop_lines) (-1)) as Hsorted.
  { symmetry. apply replicate_Permutation. symmetry.
    apply merge_sort_Permutation. }
  assert (length stop_lines ≠ 0%nat) as Hlen by (by destruct stop_lines).
  eexists. unfold waypoints_cb.
  destruct (Z.eqb_spec (len stop_lines) 0) as [E|_];
    [unfold len in E; lia|].
  cbv zeta. rewrite (Hbind stop_lines []) by done.
  cbn -[sorted replicate]. rewrite Hsorted.
  assert (last (replicate (length stop_lines) (-1)) = Some (-1)) as Hlast.
  { rewrite last_lookup, length_replicate. apply lookup_replicate_2. lia. }
  split_and!; [done | done | done | done | |].
  - unfold pose_cb, reset_car_index. cbn.
    by rewrite (py_index_last _ _ Hlast).
  - unfold get_stop_line. cbn. do 2 f_equal.
    apply first_after_None. intros k [-> _]%elem_of_replicate. lia.
Qed.

End RouteLoadEdges.

(** ** The Debouncer over time, and what the loop publishes *)

Section DebounceTraceFacts.
Context `{Floats}.

Lemma debounce_published (self : Detector) (s : Z) (st : TrafficLight)
    (tw : TrafficWaypoint) :
  (debounce self s st).2 = Some tw →
  tw = mkTrafficWaypoint s st
  ∧ state self = st
  ∧ STATE_COUNT_THRESHOLD ≤ state_count self
  ∧ last_stop_line (debounce self s st).1 = Some s.
Proof.
  unfold debounce. case_bool_decide as Hst; [done|].
  destruct (Z.eqb_spec (state_count self) STATE_COUNT_THRESHOLD) as [Hc|Hc];
    cbn [orb].
  - intros [= <-]. split_and!; [done | | lia | done].
    by destruct (decide (state self = st)).
  - destruct (Z.gtb_spec (state_count self) STATE_COUNT_THRESHOLD);
      cbn [andb]; [|done].
    case_bool_decide; [|done]. intros [= <-].
    split_and!; [done | | lia | done].
    by destruct (decide (state self = st)).
Qed.

Lemma debounce_counter_backed (self : Detector) (s : Z) (st : TrafficLight)
    (seen : list (Z * TrafficLight)) :
  counter_backed self seen →
  counter_backed (debounce self s st).1 (seen ++ [(s, st)]).
Proof.
  intros [Hle Hback].
  assert (∀ self1 : Detector,
    state self1 = st →
    (state_count self1 = 0
     ∨ state self = st ∧ state_count self1 = state_count self) →
    counter_backed (set_state_count (state_count self1 + 1) self1)
      (seen ++ [(s, st)])) as Hstep.
  { intros self1 Hst1 Hcount. unfold counter_backed.
    rewrite length_app. cbn. split; [lia|].
    intros i Hi Hlt. rewrite Hst1.
    destruct (decide (i = length seen)) as [->|Hne].
    - exists s. by rewrite lookup_app_r, Nat.sub_diag by done.
    - rewrite lookup_app_l by lia.
      destruct Hcount as [Hzero|[Hst Hsame]]; [lia|].
      rewrite <- Hst. apply Hback; lia. }
  unfold debounce. case_bool_decide as Hst; cbn [fst].
  - apply Hstep; [done | by left].
  - assert (state self = st) as Hst'
      by (by destruct (decide (state self = st))).
    destruct (_ || _); cbn [fst]; apply Hstep; try done; by right.
Qed.

Lemma debounce_trace_backed (rest seen : list (Z * TrafficLight))
    (self : Detector) (k : nat) (tw : TrafficWaypoint) :
  counter_backed self seen →
  debounce_trace self rest !! k = Some (Some tw) →
  (3 ≤ length seen + k)%nat
  ∧ (seen ++ rest) !! (length seen + k)%nat
    = Some (tw_waypoint tw, tw_state tw)
  ∧ ∀ j, (length seen + k - 3 ≤ j ≤ length seen + k)%nat →
         ∃ stop_line, (seen ++ rest) !! j = Some (stop_line, tw_state tw).
Proof.
  revert seen self k. induction rest as [|[s st] rest IH];
    intros seen self k Hback; [done|].
  cbn [debounce_trace].
  pose proof (debounce_counter_backed self s st seen Hback) as Hback'.
  pose proof (debounce_published self s st) as Hpub.
  destruct (debounce self s st) as [self' published]. cbn [fst snd] in *.
  destruct k as [|k]; cbn [lookup list_lookup].
  - intros [= ->]. destruct (Hpub tw eq_refl) as (-> & Hst & Hc & _).
    destruct Hback as [Hle Hback]. unfold STATE_COUNT_THRESHOLD in Hc.
    rewrite Nat.add_0_r. cbn [tw_waypoint tw_state].
    split_and!; [lia | by rewrite lookup_app_r, Nat.sub_diag by done |].
    intros j Hj. destruct (decide (j = length seen)) as [->|Hne].
    + exists s. by rewrite lookup_app_r, Nat.sub_diag by done.
    + rewrite lookup_app_l by lia. rewrite <- Hst. apply Hback; lia.
  - intros Hk. rewrite (cons_middle (s, st) seen rest), app_assoc.
    destruct (IH (seen ++ [(s, st)]) self' k Hback' Hk) as (H3 & Hat & Hall).
    rewrite length_app in *. cbn [length] in *.
    replace (length seen + S k)%nat with (length seen + 1 + k)%nat by lia.
    done.
Qed.

(** X8.  Started with the counter at 0, the debounce step publishes an
    event only on a tick that is at least the fourth, the event carries the
    stop line and the state of that tick's sample, and that state is the
    state of the three samples before it as well. *)
Theorem debounce_publishes_only_confirmed (self : Detector)
    (samples : list (Z * TrafficLight)) (k : nat) (tw : TrafficWaypoint) :
  state_count self = 0 →
  debounce_trace self samples !! k = Some (Some tw) →
  (3 ≤ k)%nat
  ∧ samples !! k = Some (tw_waypoint tw, tw_state tw)
  ∧ ∀ j, (k - 3 ≤ j ≤ k)%nat →
         ∃ stop_line, samples !! j = Some (stop_line, tw_state tw).
Proof.
  intros Hc Hk.
  apply (debounce_trace_backed samples [] self k tw); [|done].
  split; [cbn; lia|]. cbn. intros i _ Hi. lia.
Qed.

Lemma debounce_settled (self : Detector) (s : Z) (st : TrafficLight) :
  state self = st →
  STATE_COUNT_THRESHOLD < state_count self →
  (debounce self s st).2
  = (if decide (last_stop_line self = Some s) then None
     else Some (mkTrafficWaypoint s st))
  ∧ state (debounce self s st).1 = st
  ∧ STATE_COUNT_THRESHOLD < state_count (debounce self s st).1
  ∧ last_stop_line (debounce self s st).1 = Some s.
Proof.
  intros Hst Hc. case_decide as Hl.
  - rewrite debounce_quiet by (done || lia). cbn. split_and!; (done || lia).
  - rewrite debounce_publish by (done || right; done). cbn.
    split_and!; (done || lia).
Qed.

(** X9.  Once a state is confirmed (it is the raw state and the counter is
    above the threshold), ticks that keep seeing it publish exactly when
    the stop line ahead differs from the one of the tick before (for the
    first tick: from the last published stop line), and then they publish
    the new stop line with the confirmed state. *)
Theorem debounce_publishes_each_new_stop_line (self : Detector)
    (st : TrafficLight) (stops : list Z) :
  state self = st →
  STATE_COUNT_THRESHOLD < state_count self →
  (∀ s, stops !! 0%nat = Some s →
        debounce_trace self ((λ s, (s, st)) <$> stops) !! 0%nat
        = Some (if decide (last_stop_line self = Some s) then None
                else Some (mkTrafficWaypoint s st)))
  ∧ (∀ i s s', stops !! i = Some s → stops !! S i = Some s' →
        debounce_trace self ((λ s, (s, st)) <$> stops) !! S i
        = Some (if decide (s = s') then None
                else Some (mkTrafficWaypoint s' st))).
Proof.
  revert self. induction stops as [|s0 stops IH]; intros self Hst Hc;
    [done|].
  cbn [fmap list_fmap debounce_trace].
  destruct (debounce_settled self s0 st Hst Hc) as (Hpub & Hst' & Hc' & Hl').
  destruct (debounce self s0 st) as [self' published]. cbn [fst snd] in *.
  destruct (IH self' Hst' Hc') as [Hfirst Hnext].
  split.
  - intros s [= <-]. cbn. by rewrite Hpub.
  - intros [|i] s s' Hs Hs'.
    + injection Hs as <-. pose proof (Hfirst s' Hs') as Hf.
      rewrite Hl' in Hf. refine (eq_trans Hf _).
      f_equal. repeat case_decide; congruence.
    + by apply Hnext.
Qed.

(** X10.  An event published by a loop iteration names a stored stop line
    that is strictly ahead of the vehicle index, and carries the state the
    light-state source returned in that iteration, which was already the
    confirmed state with the counter at the threshold or above; the stop
    line is recorded as the last published one. *)
Theorem loop_publishes_stop_line_ahead (self self' : Detector)
    (light_state : result TrafficLight) (tw : TrafficWaypoint) :
  loop_iteration self light_state = (self', Ok (Some tw)) →
  ∃ c stop_lines,
    shared_car_index self = Some c
    ∧ shared_stop_lines self = Some stop_lines
    ∧ tw_waypoint tw ∈ stop_lines
    ∧ c < tw_waypoint tw
    ∧ light_state = Ok (tw_state tw)
    ∧ state self = tw_state tw
    ∧ STATE_COUNT_THRESHOLD ≤ state_count self
    ∧ last_stop_line self' = Some (tw_waypoint tw).
Proof.
  unfold loop_iteration, get_stop_line.
  destruct (shared_car_index self) as [c|]; [|done].
  destruct (shared_stop_lines self) as [stop_lines|]; [|done].
  destruct (first_after c stop_lines) as [s|] eqn:Hs; [|done].
  destruct light_state as [st|e]; [|done].
  pose proof (debounce_published self s st tw) as Hpub.
  destruct (debounce self s st) as [self1 published]. cbn [fst snd] in *.
  intros [= <- ->]. destruct (Hpub eq_refl) as (-> & Hst & Hc & Hl).
  exists c, stop_lines. cbn. split_and!; try done.
  - clear -Hs. induction stop_lines as [|a l IH]; [done|]. cbn in Hs.
    destruct (a >? c); [injection Hs as ->; by left | right; by apply IH].
  - clear -Hs. induction stop_lines as [|a l IH]; [done|]. cbn in Hs.
    destruct (Z.gtb_spec a c); [injection Hs as ->; lia | by apply IH].
Qed.

(** X11.  After a route message, whatever its outcome (route loaded,
    message ignored for an empty configuration, or exception), the next
    loop iteration finds no stop line: it publishes nothing, does not look
    at the light state, and leaves the object as it is. *)
Theorem loop_is_silent_after_route_message (self : Detector)
    (waypoints stop_lines : list (Point float))
    (light_state : result TrafficLight) :
  loop_iteration (waypoints_cb self waypoints stop_lines).1 light_state
  = ((waypoints_cb self waypoints stop_lines).1, Ok None).
Proof.
  unfold loop_iteration.
  by rewrite get_stop_line_undefined by apply waypoints_cb_car_index.
Qed.

End DebounceTraceFacts.

(** ** [traffic_cb]: refreshing, building, and stale bindings *)

Section DummyEdges.
Context `{Floats}.

Lemma update_lights_outcome (msg_lights : list Light)
    (lights : gmap (Point Z) LightData.t) :
  match (update_lights msg_lights lights).2 with
  | Ok _ =>
      Forall (λ light, ∃ point,
                get_light_point (light_position light) = Ok point
                ∧ is_Some (lights !! point)) msg_lights
  | Raise e =>
      ∃ before light after,
        msg_lights = before ++ light :: after
        ∧ Forall (λ light, ∃ point,
                    get_light_point (light_position light) = Ok point
                    ∧ is_Some (lights !! point)) before
        ∧ (get_light_point (light_position light) = Raise e
           ∨ ∃ point, get_light_point (light_position light) = Ok point
                      ∧ lights !! point = None
                      ∧ e = KeyError)
  end.
Proof.
  revert lights. induction msg_lights as [|light rest IH]; intros lights;
    cbn [update_lights]; [by constructor|].
  destruct (get_light_point (light_position light)) as [point|e] eqn:Hpoint.
  2:{ cbn. exists [], light, rest. split_and!; [done | done | by left]. }
  destruct (lights !! point) as [data|] eqn:Hdata.
  2:{ cbn. exists [], light, rest. split_and!; [done | done |].
      right. by exists point. }
  set (lights1 := <[_ := _]> lights).
  assert (∀ p, is_Some (lights1 !! p) ↔ is_Some (lights !! p)) as Hdom.
  { intros p. unfold lights1.
    rewrite <- !elem_of_dom, dom_insert_lookup_L; [done|by eexists]. }
  assert (∀ l : list Light,
    Forall (λ light, ∃ point,
              get_light_point (light_position light) = Ok point
              ∧ is_Some (lights1 !! point)) l →
    Forall (λ light, ∃ point,
              get_light_point (light_position light) = Ok point
              ∧ is_Some (lights !! point)) l) as Hall.
  { intros l Hl. eapply Forall_impl; [exact Hl|]. intros l0 (p & Hp & Hb).
    exists p. split; [done | by apply Hdom]. }
  specialize (IH lights1).
  destruct (update_lights rest lights1) as [lights2 [[]|e]]; cbn in *.
  - constructor; [|by apply Hall]. exists point. by rewrite Hdata.
  - destruct IH as (before & l & after & -> & Hbefore & Hl).
    exists (light :: before), l, after. split_and!; [done | |].
    + constructor; [|by apply Hall]. exists point. by rewrite Hdata.
    + destruct Hl as [Hl|(p & Hp & Hnone & ->)]; [by left | right].
      exists p. split_and!; [done | | done].
      destruct (lights !! p) eqn:Hlp; [|done].
      assert (is_Some (lights1 !! p)) as [? ?] by (apply Hdom; by eexists).
      congruence.
Qed.

(** X12.  With a route loaded and bindings present, a light message is
    handled without exception exactly when the key of every light in it
    is computed and already bound.  Otherwise the handler raises at the
    first light for which this fails: the exception of [get_light_point]
    if the key is not computed, [KeyError] if it is computed and not
    bound. *)
Theorem traffic_cb_update_outcome (self : DummyDetector)
    (msg_lights : list Light) (lights : gmap (Point Z) LightData.t) :
  is_Some (shared_waypoints (dummy_base self)) →
  shared_traffic_lights self = Some lights →
  match (traffic_cb self msg_lights).2 with
  | Ok _ =>
      Forall (λ light, ∃ point,
                get_light_point (light_position light) = Ok point
                ∧ is_Some (lights !! point)) msg_lights
  | Raise e =>
      ∃ before light after,
        msg_lights = before ++ light :: after
        ∧ Forall (λ light, ∃ point,
                    get_light_point (light_position light) = Ok point
                    ∧ is_Some (lights !! point)) before
        ∧ (get_light_point (light_position light) = Raise e
           ∨ ∃ point, get_light_point (light_position light) = Ok point
                      ∧ lights !! point = None
                      ∧ e = KeyError)
  end.
Proof.
  intros [waypoints Hw] Hl. unfold traffic_cb. rewrite Hw, Hl.
  pose proof (update_lights_outcome msg_lights lights) as Hout.
  by destruct (update_lights msg_lights lights).
Qed.

End DummyEdges.

Section DummyBuild.
Context `{Floats}.

Lemma build_lights_tl_map_mono (base : Detector) (msg_lights : list Light)
    (lights : gmap (Point Z) LightData.t) (tlm : gmap Z (Point Z)) (i : Z) :
  is_Some (tlm !! i) →
  is_Some ((build_lights base msg_lights lights tlm).1.2 !! i).
Proof.
  revert lights tlm. induction msg_lights as [|light rest IH];
    intros lights tlm Hi; cbn; [done|].
  destruct (get_light_point (light_position light)) as [point|e]; [|done].
  destruct (get_closest_waypoint base _) as [index|e]; [|done].
  apply IH. destruct (decide (index = i)) as [->|Hne].
  - by rewrite lookup_insert_eq.
  - by rewrite lookup_insert_ne.
Qed.

Lemma build_lights_ok (base : Detector) (msg_lights : list Light)
    (lights lights' : gmap (Point Z) LightData.t)
    (tlm tlm' : gmap Z (Point Z)) :
  build_lights base msg_lights lights tlm = (lights', tlm', Ok ()) →
  (∀ p, LightData.state <$> lights' !! p
        = match reported msg_lights p with
          | Some st => Some st
          | None => LightData.state <$> lights !! p
          end)
  ∧ (∀ p data, lights' !! p = Some data →
       lights !! p = Some data
       ∨ ∃ light, light ∈ msg_lights
                  ∧ get_light_point (light_position light) = Ok p
                  ∧ get_closest_waypoint base (light_position light)
                    = Ok (LightData.index data))
  ∧ (∀ i p, tlm' !! i = Some p →
       tlm !! i = Some p
       ∨ ∃ light, light ∈ msg_lights
                  ∧ get_light_point (light_position light) = Ok p
                  ∧ get_closest_waypoint base (light_position light) = Ok i)
  ∧ (∀ light, light ∈ msg_lights →
       ∃ i, get_closest_waypoint base (light_position light) = Ok i
            ∧ is_Some (tlm' !! i)).
Proof.
  revert lights tlm. induction msg_lights as [|light rest IH];
    intros lights tlm; cbn [build_lights reported].
  - intros [= <- <-]. split_and!; [done | by left | by left |].
    by intros light ?%elem_of_nil.
  - destruct (get_light_point (light_position light))
      as [point|e] eqn:Hpoint; [|done].
    destruct (get_closest_waypoint base (light_position light))
      as [index|e] eqn:Hindex; [|done].
    intros Hrest. pose proof Hrest as (Hst & Hdata & Htl & Hall)%IH.
    split_and!.
    + intros p. rewrite Hst. destruct (reported rest p); [done|].
      case_decide as Hp.
      * injection Hp as ->. by rewrite lookup_insert_eq.
      * rewrite lookup_insert_ne; [done|]. by intros ->.
    + intros p data [Hold|(l & Hl & Hkey & Hclosest)]%Hdata.
      * destruct (decide (point = p)) as [Hp|Hp].
        -- rewrite Hp, lookup_insert_eq in Hold. injection Hold as <-.
           right. exists light. split_and!; [by left | by subst | done].
        -- rewrite lookup_insert_ne in Hold by done. by left.
      * right. exists l. split_and!; [by right | done | done].
    + intros i p [Hold|(l & Hl & Hkey & Hclosest)]%Htl.
      * destruct (decide (index = i)) as [Hi|Hi].
        -- rewrite Hi, lookup_insert_eq in Hold. injection Hold as <-.
           right. exists light. split_and!; [by left | done | by rewrite <- Hi].
        -- rewrite lookup_insert_ne in Hold by done. by left.
      * right. exists l. split_and!; [by right | done | done].
    + intros l [->|Hl]%elem_of_cons; [|by apply Hall].
      exists index. split; [done|].
      pose proof (build_lights_tl_map_mono base rest
                    (<[point := LightData.mk index (light_state light)]>
                       lights)
                    (<[index := point]> tlm)
                    index) as Hmono.
      rewrite Hrest in Hmono. apply Hmono. by rewrite lookup_insert_eq.
Qed.

(** X13.  The first light message handled with a route loaded, when it
    runs to its end, binds exactly the keys of its lights: each key holds
    the state the message reports last for it and the closest waypoint of
    a light with that key; the lookup table holds, for the closest
    waypoint of every light, a key of a light with that closest waypoint,
    and nothing else. *)
Theorem traffic_cb_builds_bindings (self : DummyDetector)
    (msg_lights : list Light) :
  is_Some (shared_waypoints (dummy_base self)) →
  shared_traffic_lights self = None →
  tl_map self = ∅ →
  (traffic_cb self msg_lights).2 = Ok () →
  ∃ lights',
    shared_traffic_lights (traffic_cb self msg_lights).1 = Some lights'
    ∧ (∀ p, LightData.state <$> lights' !! p = reported msg_lights p)
    ∧ (∀ p data, lights' !! p = Some data →
         ∃ light, light ∈ msg_lights
                  ∧ get_light_point (light_position light) = Ok p
                  ∧ get_closest_waypoint (dummy_base self)
                      (light_position light) = Ok (LightData.index data))
    ∧ (∀ i p, tl_map (traffic_cb self msg_lights).1 !! i = Some p →
         ∃ light, light ∈ msg_lights
                  ∧ get_light_point (light_position light) = Ok p
                  ∧ get_closest_waypoint (dummy_base self)
                      (light_position light) = Ok i)
    ∧ (∀ light, light ∈ msg_lights →
         ∃ i, get_closest_waypoint (dummy_base self) (light_position light)
              = Ok i
              ∧ is_Some (tl_map (traffic_cb self msg_lights).1 !! i)).
Proof.
  intros [waypoints Hw] Hl Hempty. unfold traffic_cb. rewrite Hw, Hl, Hempty.
  destruct (build_lights _ _ _ _) as [[lights' tlm'] r] eqn:Hbuild.
  cbn. intros ->.
  apply build_lights_ok in Hbuild as (Hst & Hdata & Htl & Hall).
  exists lights'. split_and!; [done | | | | done].
  - intros p. rewrite Hst. by destruct (reported msg_lights p).
  - intros p data [?|?]%Hdata; done.
  - intros i p [?|?]%Htl; done.
Qed.

(** X14.  Bindings outlive the route they were made on: when the least
    bound waypoint index above the vehicle index is not an index of the
    loaded route, the ground-truth light state raises [IndexError], and
    with a stop line ahead so does the loop iteration, leaving the object
    as it is. *)
Theorem stale_binding_raises (self : DummyDetector)
    (lights : gmap (Point Z) LightData.t) (route : list (Point float))
    (v t s : Z) :
  shared_traffic_lights self = Some lights →
  shared_waypoints (dummy_base self) = Some route →
  shared_car_index (dummy_base self) = Some v →
  t ∈ dom (tl_map self) → v < t →
  (∀ k, k ∈ dom (tl_map self) → v < k → t ≤ k) →
  len route ≤ t →
  dummy_get_traffic_light_state self = Raise IndexError
  ∧ (get_stop_line (dummy_base self) = Ok (Some s) →
     dummy_loop_iteration self = (self, Raise IndexError)).
Proof.
  intros Hl Hw Hv Ht Hvt Hmin Hlen.
  assert (dummy_get_traffic_light_state self = Raise IndexError) as Hstate.
  { unfold dummy_get_traffic_light_state.
    rewrite Hl, Hv, Hw, first_light_after_defined.
    rewrite (proj2 (first_after_Some v _ t (sorted_keys_sorted _))).
    2:{ split_and!; [by apply elem_of_sorted_keys | done |].
        intros k Hk%elem_of_sorted_keys. by apply Hmin. }
    cbn. rewrite (py_index_nonneg route t) by (unfold len in *; lia).
    by rewrite lookup_ge_None_2 by (unfold len in *; lia). }
  split; [done|]. intros Hs.
  unfold dummy_loop_iteration, loop_iteration. rewrite Hs, Hstate.
  by destruct self.
Qed.

End DummyBuild.

(** ** The image variant, and the reachable states *)

Section ImageNodeFacts.
Context `{Floats} `{Classifier}.

Lemma pose_cb_route_stored (self : Detector) (position : Point float) :
  route_stored self → route_stored (pose_cb self position).1.
Proof.
  intros [Hcar Hroute].
  destruct (shared_waypoints self) as [waypoints|] eqn:Hw.
  - destruct (pose_cb_frame self position) as [v ->]. split; cbn.
    + intros _. by rewrite Hw.
    + by rewrite Hw.
  - rewrite pose_cb_no_route by done. unfold route_stored. cbn.
    by rewrite Hw.
Qed.

Lemma bind_stop_lines_stored (stop_lines : list (Point float))
    (self : Detector) :
  is_Some (shared_stop_lines self) →
  is_Some (shared_stop_lines (bind_stop_lines stop_lines self).1)
  ∧ shared_waypoints (bind_stop_lines stop_lines self).1
    = shared_waypoints self.
Proof.
  revert self. induction stop_lines as [|p ps IH]; intros self Hs; [done|].
  cbn. destruct (get_closest_waypoint self p) as [index|e]; [|done].
  destruct (IH (set_shared_stop_lines
                  ((λ l, l ++ [index]) <$> shared_stop_lines self) self))
    as [Hs' Hw'].
  - cbn. destruct Hs as [l ->]. by eexists.
  - done.
Qed.

Lemma waypoints_cb_route_stored (self : Detector)
    (waypoints stop_lines : list (Point float)) :
  route_stored self →
  route_stored (waypoints_cb self waypoints stop_lines).1.
Proof.
  intros [_ Hroute]. split.
  { rewrite waypoints_cb_car_index. by intros [? ?]. }
  unfold waypoints_cb. destruct (len stop_lines =? 0); [done|].
  destruct (bind_stop_lines_stored stop_lines
              (set_shared_stop_lines (Some [])
                 (set_shared_waypoints (Some waypoints)
                    (set_shared_car_index None self)))) as [Hs Hw]; [done|].
  destruct (bind_stop_lines _ _) as [self1 [[]|e]]; cbn in *; [|done].
  intros _. by destruct Hs as [l ->].
Qed.

Lemma get_stop_line_route_stored (self : Detector) :
  route_stored self → ∃ ahead, get_stop_line self = Ok ahead.
Proof.
  intros [Hcar Hroute]. unfold get_stop_line.
  destruct (shared_car_index self) as [c|]; [|by eexists].
  destruct Hroute as [stop_lines ->]; [by apply Hcar|]. by eexists.
Qed.

Lemma image_node_step (self : ImageDetector) (ev : event) :
  route_stored (image_base self) →
  ∃ self' published,
    node_step (ImageNode self) ev = (ImageNode self', Ok published)
    ∧ route_stored (image_base self')
    ∧ shared_camera_image self'
      = last_frame [ev] (shared_camera_image self).
Proof.
  intros Hstored. destruct ev as [position|waypoints stop_lines|msg|lights|];
    cbn [node_step last_frame].
  - eexists _, _. split_and!; [done | by apply pose_cb_route_stored | done].
  - eexists _, _.
    split_and!; [done | by apply waypoints_cb_route_stored | done].
  - by eexists _, _.
  - by eexists _, _.
  - destruct (get_stop_line_route_stored _ Hstored) as [ahead Hahead].
    pose proof (loop_iteration_frame (image_base self)
                  (image_get_traffic_light_state self)) as (Hc & Hw & Hs).
    unfold image_loop_iteration, loop_iteration in *. rewrite Hahead in *.
    destruct ahead as [stop_line|]; [|by eexists _, _].
    unfold image_get_traffic_light_state in *.
    destruct (shared_camera_image self) eqn:Himg;
      destruct (debounce _ _ _) as [base published]; cbn in *;
      eexists _, _; (split_and!; [done | | done]);
      destruct Hstored as [Hcar Hroute]; split; cbn; by rewrite ?Hc, ?Hw, ?Hs.
Qed.

Lemma image_node_run (events : list event) (self : ImageDetector) :
  route_stored (image_base self) →
  ∃ self' out,
    node_run (ImageNode self) events = (ImageNode self', out, Ok ())
    ∧ shared_camera_image self'
      = last_frame events (shared_camera_image self).
Proof.
  revert self. induction events as [|ev rest IH]; intros self Hstored.
  - by eexists _, _.
  - destruct (image_node_step self ev Hstored)
      as (self1 & published & Hstep & Hstored1 & Himg).
    destruct (IH self1 Hstored1) as (self' & out & Hrun & Himg').
    cbn [node_run]. rewrite Hstep, Hrun. eexists _, _. split; [done|].
    rewrite Himg', Himg. by destruct ev.
Qed.

(** X15.  The image variant never raises: from the start of the process,
    whatever events arrive, every loop iteration ends normally; and the
    camera frame held at the end is the last one received, earlier frames
    being dropped. *)
Theorem image_node_never_raises (events : list event) :
  ∃ self out,
    node_run (ImageNode ImageDetector_init) events
    = (ImageNode self, out, Ok ())
    ∧ shared_camera_image self = last_frame events None.
Proof.
  apply (image_node_run events ImageDetector_init). by split; intros [? ?].
Qed.

(** X16.  In every state the node reaches from the start of the process,
    in either variant, a defined vehicle index is not negative, the vehicle
    index is undefined while no route is loaded, and every entry of the
    ground-truth lookup table leads to a binding. *)
Theorem reachable_states_are_consistent (events : list event) :
  node_invariant (node_run (ImageNode ImageDetector_init) events).1.1
  ∧ node_invariant (node_run (DummyNode DummyDetector_init) events).1.1.
Proof. split; apply node_run_invariant, node_invariant_init. Qed.

End ImageNodeFacts.

(** ** The further properties on the grid *)


Lemma waypoints_cb_failure_witness :
  shared_waypoints
    (waypoints_cb Detector_init Grid.route Cases.unreachable_stop_lines).1
  = Some Grid.route
  ∧ shared_car_index
      (waypoints_cb Detector_init Grid.route Cases.unreachable_stop_lines).1
    = None
  ∧ ∃ before position after indices,
      Cases.unreachable_stop_lines = before ++ position :: after
      ∧ Forall2 (λ q index,
          get_closest_waypoint
            (waypoints_cb Detector_init Grid.route
               Cases.unreachable_stop_lines).1 q = Ok index)
          before indices
      ∧ get_closest_waypoint
          (waypoints_cb Detector_init Grid.route
             Cases.unreachable_stop_lines).1 position
        = Raise UnboundLocalError
      ∧ (UnboundLocalError = UnboundLocalError
         ∨ ∃ wp, wp ∈ Grid.route
                 ∧ distance wp position = Raise UnboundLocalError)
      ∧ shared_stop_lines
          (waypoints_cb Detector_init Grid.route
             Cases.unreachable_stop_lines).1 = Some indices.
Proof.
  apply (waypoints_cb_failure Detector_init
           (waypoints_cb Detector_init Grid.route
              Cases.unreachable_stop_lines).1
           Grid.route Cases.unreachable_stop_lines UnboundLocalError).
  reflexivity.
Defined.

Lemma empty_route_load_witness :
  ∃ self',
    waypoints_cb Detector_init [] Grid.stop_lines = (self', Ok ())
    ∧ shared_waypoints self' = Some []
    ∧ shared_stop_lines self' = Some (replicate (length Grid.stop_lines) (-1))
    ∧ pose_cb self' (Point.mk 1 0)
      = (set_shared_car_index (Some 0) self', Raise IndexError)
    ∧ pose_cb (set_shared_car_index (Some 0) self') (Point.mk 1 0)
      = (set_shared_car_index (Some 0) self', Raise IndexError)
    ∧ get_stop_line (set_shared_car_index (Some 0) self') = Ok None.
Proof.
  apply (empty_route_load Detector_init Grid.stop_lines (Point.mk 1 0)).
  discriminate.
Defined.

Ltac grid_route_track_ready :=
  split_and!; [reflexivity | reflexivity | discriminate | discriminate |];
  intros c [= <-]; unfold len; cbn; lia.

Lemma pose_cb_keeps_index_in_route_witness :
  ∃ c',
    (pose_cb Grid.at_start (Point.mk 19 0)).1
    = mkDetector (state Grid.at_start) (state_count Grid.at_start)
        (last_stop_line Grid.at_start) (Some c')
        (shared_waypoints Grid.at_start) (shared_stop_lines Grid.at_start)
    ∧ 0 ≤ c' < len Grid.route
    ∧ route_track_ready (pose_cb Grid.at_start (Point.mk 19 0)).1
        Grid.route [2]
    ∧ ((pose_cb Grid.at_start (Point.mk 19 0)).2 = Ok ()
       ∨ ∃ e wp, (pose_cb Grid.at_start (Point.mk 19 0)).2 = Raise e
                 ∧ wp ∈ Grid.route
                 ∧ distance (Point.mk 19 0) wp = Raise e).
Proof.
  apply (pose_cb_keeps_index_in_route Grid.at_start Grid.route [2]
           (Point.mk 19 0)).
  grid_route_track_ready.
Defined.

Lemma pose_cb_stops_at_first_local_minimum_witness :
  ∃ self1 c1 c',
    reset_car_index Grid.at_start = Ok (self1, c1)
    ∧ shared_car_index (pose_cb Grid.at_start (Point.mk 19 0)).1 = Some c'
    ∧ c1 ≤ c'
    ∧ descends (Point.mk 19 0) Grid.route c1 c'
    ∧ stops (Point.mk 19 0) Grid.route c'.
Proof.
  apply (pose_cb_stops_at_first_local_minimum Grid.at_start Grid.route [2]
           (Point.mk 19 0)); [grid_route_track_ready | reflexivity].
Defined.

Lemma pose_cb_idempotent_witness :
  pose_cb (pose_cb Grid.at_start (Point.mk 19 0)).1 (Point.mk 19 0)
  = ((pose_cb Grid.at_start (Point.mk 19 0)).1, Ok ()).
Proof.
  apply (pose_cb_idempotent Grid.at_start Grid.route [2] (Point.mk 19 0) 2 2);
    [grid_route_track_ready | reflexivity | reflexivity | reflexivity | lia].
Defined.

Lemma debounce_publishes_only_confirmed_witness :
  (3 ≤ 3)%nat
  ∧ replicate 5 (2, RED) !! 3%nat = Some (2, RED)
  ∧ ∀ j, (3 - 3 ≤ j ≤ 3)%nat →
         ∃ stop_line, replicate 5 (2, RED) !! j = Some (stop_line, RED).
Proof.
  apply (debounce_publishes_only_confirmed Grid.at_start
           (replicate 5 (2, RED)) 3 (mkTrafficWaypoint 2 RED));
    reflexivity.
Defined.

Lemma debounce_publishes_each_new_stop_line_witness :
  (∀ s, [2; 3; 3] !! 0%nat = Some s →
        debounce_trace Grid.moved_on ((λ s, (s, GREEN)) <$> [2; 3; 3])
          !! 0%nat
        = Some (if decide (last_stop_line Grid.moved_on = Some s) then None
                else Some (mkTrafficWaypoint s GREEN)))
  ∧ (∀ i s s', [2; 3; 3] !! i = Some s → [2; 3; 3] !! S i = Some s' →
        debounce_trace Grid.moved_on ((λ s, (s, GREEN)) <$> [2; 3; 3])
          !! S i
        = Some (if decide (s = s') then None
                else Some (mkTrafficWaypoint s' GREEN))).
Proof.
  apply (debounce_publishes_each_new_stop_line Grid.moved_on GREEN
           [2; 3; 3]); reflexivity.
Defined.

Lemma loop_publishes_stop_line_ahead_witness :
  ∃ c stop_lines,
    shared_car_index Cases.confirming = Some c
    ∧ shared_stop_lines Cases.confirming = Some stop_lines
    ∧ 2 ∈ stop_lines
    ∧ c < 2
    ∧ Ok RED = Ok RED
    ∧ state Cases.confirming = RED
    ∧ STATE_COUNT_THRESHOLD ≤ state_count Cases.confirming
    ∧ last_stop_line (loop_iteration Cases.confirming (Ok RED)).1 = Some 2.
Proof.
  apply (loop_publishes_stop_line_ahead Cases.confirming
           (loop_iteration Cases.confirming (Ok RED)).1 (Ok RED)
           (mkTrafficWaypoint 2 RED)).
  reflexivity.
Defined.

Lemma traffic_cb_update_outcome_witness :
  Forall (λ light, ∃ point,
            get_light_point (light_position light) = Ok point
            ∧ is_Some (({[Point.mk 21 0 := LightData.mk 2 RED]}
                         : gmap (Point Z) LightData.t) !! point))
    Grid.lights_green.
Proof.
  exact (traffic_cb_update_outcome Grid.dummy_bound Grid.lights_green
           {[Point.mk 21 0 := LightData.mk 2 RED]}
           (ex_intro _ Grid.route eq_refl) eq_refl).
Defined.

Lemma traffic_cb_builds_bindings_witness :
  ∃ lights',
    shared_traffic_lights (traffic_cb Grid.dummy_at_start Grid.lights).1
    = Some lights'
    ∧ ∀ p, LightData.state <$> lights' !! p = reported Grid.lights p.
Proof.
  destruct (traffic_cb_builds_bindings Grid.dummy_at_start Grid.lights)
    as (lights' & Hl & Hst & _);
    [by eexists | reflexivity | reflexivity | reflexivity |].
  by exists lights'.
Defined.

Lemma stale_binding_raises_witness :
  dummy_get_traffic_light_state Cases.stale = Raise IndexError
  ∧ (get_stop_line (dummy_base Cases.stale) = Ok (Some 1) →
     dummy_loop_iteration Cases.stale = (Cases.stale, Raise IndexError)).
Proof.
  assert (tl_map Cases.stale = {[2 := Point.mk 21 0]}) as Htl by reflexivity.
  apply (stale_binding_raises Cases.stale
           {[Point.mk 21 0 := LightData.mk 2 RED]} Cases.short_route 0 2 1).
  - reflexivity.
  - reflexivity.
  - reflexivity.
  - rewrite Htl, dom_singleton_L. by apply elem_of_singleton.
  - lia.
  - intros k. rewrite Htl, dom_singleton_L. intros ->%elem_of_singleton. lia.
  - unfold len. cbn. lia.
Defined.
